(** * AIJobInsight: the response normaliser, the bullet split and the HTTP client

    A shallow embedding of the three pieces of logic of the repository:

    - [Gemini.generateInsights] (services/geminiService.ts): the generative
      model client and the normalisation of its parsed response;
    - [Http.getJobInsights] (the inlined API service of the HTTP variant of
      App.tsx);
    - [App.points] (src/App.tsx): the split of a free-text field into bullets.

    Modelling conventions.

    - A JavaScript [number] is an IEEE 754 binary64 number, in the Standard
      Library's specification of them ([spec_float]): a zero or an infinity
      with its sign, NaN, or a finite [m * 2 ^ e] with its sign. Sums,
      differences, products and quotients round to the nearest double, ties
      to even, and the comparisons are those of IEEE 754.
    - A JavaScript string is a [string]: a sequence of code units, of which the
      model has those below 256.
    - [throw new Error(m)] is the value [Error m] of the type [result];
      [await] of a promise is its settled outcome, given as an input.
    - A property the code tests for presence is an [option] field.
    - The body of an HTTP response is any JSON value ([Js.Json]). What the
      language leaves to the engine, the message of the [TypeError] for a
      property of [null] and the digits of the text of a number, is a
      parameter ([Js.Engine]) of the code that needs it. *)

From Stdlib Require Import ZArith QArith Qround Lia Lqa.
From Stdlib Require Import Floats.SpecFloat.
From Stdlib Require Import Ascii String List.
From stdpp Require Import gmap strings list fin_maps.

(** ** Outcomes: a value, or a thrown [Error] with its message *)

Inductive result (A : Type) : Type :=
| Ok (value : A)
| Error (message : string).

Arguments Ok {A} value.
Arguments Error {A} message.

(** ** The built-ins of JavaScript that the code calls *)

Module Js.

(** A number: a binary64, of 53 bits of precision, the exponent of the
    infinities being 1024. *)
Definition number : Type := spec_float.
Definition prec : Z := 53.
Definition emax : Z := 1024.

(** The double of a whole number (a numeric literal such as [100]), and
    the same with the sign [s] for its zero. *)
Definition integer (s : bool) (n : Z) : number := binary_normalize prec emax n 0 s.
Definition num (n : Z) : number := integer false n.

(** [x + y], [x - y], [x * y] and [x / y]. *)
Definition add : number -> number -> number := SFadd prec emax.
Definition sub : number -> number -> number := SFsub prec emax.
Definition mul : number -> number -> number := SFmul prec emax.
Definition div : number -> number -> number := SFdiv prec emax.

(** [x > y] and [x === y] on numbers. *)
Definition gt (x y : number) : bool := SFltb y x.
Definition strict_eq (x y : number) : bool := SFeqb x y.

(** [Math.round(x)]: [x] itself when it is not finite or has no
    fractional bits; else the whole number nearest to [x], the upper one
    at a half, that is the floor of [x + 1/2] taken over the exact value
    [(-1)^s * m / 2^k] of [x]; the zero it may give has the sign of [x]. *)
Definition Math_round (x : number) : number :=
  match x with
  | S754_finite s m (Zneg k) =>
      integer s ((2 * cond_Zopp s (Zpos m) + 2 ^ Zpos k) / 2 ^ (Zpos k + 1))
  | _ => x
  end.

(** [Boolean(s)] on a string: the empty string alone is falsy. *)
Definition Boolean (s : string) : bool :=
  match s with
  | EmptyString => false
  | String _ _ => true
  end.

(** [a || b] on strings, where [a] may be [undefined]. *)
Definition or (a : option string) (b : string) : string :=
  match a with
  | Some s => if Boolean s then s else b
  | None => b
  end.

(** White space and line terminators, as [trim] knows them: TAB, LF, VT,
    FF, CR, SPACE and NO-BREAK SPACE among the code units below 256. *)
Definition is_whitespace (c : ascii) : bool :=
  let n := N_of_ascii c in
  ((9 <=? n) && (n <=? 13) || (n =? 32) || (n =? 160))%N.

Fixpoint trimStart (s : string) : string :=
  match s with
  | EmptyString => EmptyString
  | String c rest => if is_whitespace c then trimStart rest else s
  end.

Fixpoint trimEnd (s : string) : string :=
  match s with
  | EmptyString => EmptyString
  | String c rest =>
      match trimEnd rest with
      | EmptyString => if is_whitespace c then EmptyString else String c EmptyString
      | kept => String c kept
      end
  end.

(** [s.trim()] *)
Definition trim (s : string) : string := trimEnd (trimStart s).

(** [s.split(separator)] for a separator of one code unit: the segments
    between its occurrences, empty ones included. *)
Fixpoint split (separator : ascii) (s : string) : list string :=
  match s with
  | EmptyString => [EmptyString]
  | String c rest =>
      if Ascii.eqb c separator then EmptyString :: split separator rest
      else
        match split separator rest with
        | segment :: segments => String c segment :: segments
        | [] => [String c EmptyString]
        end
  end.

(** A JSON value, as [JSON.parse] and [response.json()] give them. *)
#[warnings="-register-all"]
Inductive Json : Type :=
| JNull
| JBool (b : bool)
| JNumber (x : number)
| JString (s : string)
| JArray (items : list Json)
| JObject (fields : list (string * Json)).

(** [v.key] on a value that is not [null]: the property of an object,
    the last of its name in the text; [undefined] for a missing one and
    for a value that is no object. *)
Fixpoint field (key : string) (fields : list (string * Json)) : option Json :=
  match fields with
  | [] => None
  | (name, v) :: rest =>
      match field key rest with
      | Some later => Some later
      | None => if String.eqb name key then Some v else None
      end
  end.

Definition property (key : string) (v : Json) : option Json :=
  match v with
  | JObject fields => field key fields
  | _ => None
  end.

(** [Boolean(v)]: [null], [false], a zero, NaN and the empty string are
    falsy. *)
Definition ToBoolean (v : Json) : bool :=
  match v with
  | JNull => false
  | JBool b => b
  | JNumber (S754_zero _) => false
  | JNumber S754_nan => false
  | JNumber _ => true
  | JString s => Boolean s
  | JArray _ => true
  | JObject _ => true
  end.

(** What is left to the engine: the text of a number, and the message
    of the [TypeError] for reading a property of [null]. *)
Record Engine : Type := {
  Number_toString : number -> string;
  null_property : string
}.

(** [String(v)], which gives [new Error(v)] its message: an array is its
    items joined with commas, a [null] among them giving nothing. *)
Fixpoint ToString (engine : Engine) (v : Json) : string :=
  match v with
  | JNull => "null"
  | JBool true => "true"
  | JBool false => "false"
  | JNumber x => Number_toString engine x
  | JString s => s
  | JArray items =>
      String.concat ","
        (map (fun item => match item with
                          | JNull => ""
                          | _ => ToString engine item
                          end) items)
  | JObject _ => "[object Object]"
  end.

(** [a || b], where [a] may be [undefined]. *)
Definition or_else (a : option Json) (b : Json) : Json :=
  match a with
  | Some v => if ToBoolean v then v else b
  | None => b
  end.

(** [new Map(entries)]: the pairs are set one after the other. *)
Definition new_Map {V : Type} (entries : list (string * V)) : gmap string V :=
  foldl (fun m kv => <[kv.1 := kv.2]> m) ∅ entries.

End Js.

(** ** services/geminiService.ts *)

Module Gemini.

(** types.ts *)
Record SkillDistribution : Type := {
  technical : Js.number;
  soft : Js.number
}.

(** Lines 110 to 117 of [generateInsights]: the update of
    [data.skillDistribution]. *)
Definition normalizeSkillDistribution (sd : SkillDistribution) : SkillDistribution :=
  let total := Js.add (technical sd) (soft sd) in
  if Js.gt total (Js.num 0) && negb (Js.strict_eq total (Js.num 100)) then
    let technical' :=
      Js.Math_round (Js.mul (Js.div (technical sd) total) (Js.num 100)) in
    {| technical := technical'; soft := Js.sub (Js.num 100) technical' |}
  else if Js.strict_eq total (Js.num 0) then
    {| technical := Js.num 50; soft := Js.num 50 |}
  else sd.

Record KeyInsight : Type := {
  title : option string;
  text : string;
  icon : string
}.

(** [data], the parsed response, which the function updates and returns.
    The service may leave a property out: line 76 tests for that. *)
Record InsightData : Type := {
  skillDistribution : option SkillDistribution;
  keyInsights : option (list KeyInsight)
}.

(** Lines 80 to 85. *)
Definition insightTitles : gmap string string :=
  <["skills" := "Skill Requirements"]>
  (<["leadership" := "Leadership Experience"]>
  (<["tenure" := "Employee Tenure"]>
  (<["expertise" := "Required Expertise"]> ∅))).

(** Lines 89 to 91: [new Map(data.keyInsights.map(k => [k.icon, k]))]. *)
Definition insightsMap (entries : list KeyInsight) : gmap string KeyInsight :=
  Js.new_Map (map (fun k => (icon k, k)) entries).

(** Line 93. *)
Definition orderedIcons : list string :=
  ["skills"; "leadership"; "tenure"; "expertise"].

(** Lines 98 to 101: [{ ...insight, title: insightTitles[icon] }]. *)
Definition entitled (icon' : string) (insight : KeyInsight) : KeyInsight :=
  {| title := insightTitles !! icon';
     text := text insight;
     icon := icon insight |}.

(** Lines 95 to 102: the [map] over [orderedIcons], then [filter(Boolean)]. *)
Definition orderedInsights (entries : list KeyInsight) : list KeyInsight :=
  omap (fun icon' =>
          match insightsMap entries !! icon' with
          | None => None
          | Some insight => Some (entitled icon' insight)
          end) orderedIcons.

(** Lines 76 to 119: what the [try] block does with the parsed [data]. *)
Definition normalize (data : InsightData) : result InsightData :=
  match skillDistribution data, keyInsights data with
  | Some sd, Some entries =>
      if (length entries <? 4)%nat then
        Error "Invalid data structure received from API."
      else
        let ordered := orderedInsights entries in
        if (length ordered <? 4)%nat then
          Error "API did not return all required key insights."
        else
          Ok {| skillDistribution := Some (normalizeSkillDistribution sd);
                keyInsights := Some ordered |}
  | _, _ => Error "Invalid data structure received from API."
  end.

(** What lines 64 to 74 leave the function with: the request to the model
    is rejected (or its response has no text), [JSON.parse] throws, or
    there is a parsed [data]. *)
Inductive ApiOutcome : Type :=
| Rejected (reason : string)
| Unparsable (reason : string)
| Parsed (data : InsightData).

Definition try_block (outcome : ApiOutcome) : result InsightData :=
  match outcome with
  | Rejected reason => Error reason
  | Unparsable reason => Error reason
  | Parsed data => normalize data
  end.

(** Lines 122 to 124: the message of the error thrown by the [catch]. *)
Definition failure_message : string :=
  "Failed to generate insights. The AI model may be temporarily unavailable. Please try again later.".

(** [generateInsights]: the [try] block, and the [catch] around it.
    [jobTitle] and [jobLevel] only shape the prompt of the request, whose
    outcome is the input here. *)
Definition generateInsights (outcome : ApiOutcome) : result InsightData :=
  match try_block outcome with
  | Ok data => Ok data
  | Error _ => Error failure_message
  end.

End Gemini.

(** ** The HTTP variant of App.tsx: the inlined API service *)

Module Http.

Record SkillDistribution : Type := {
  technical_percentage : Js.number;
  soft_percentage : Js.number
}.

Record InsightData : Type := {
  job_title : string;
  career_level : string;
  skill_distribution : SkillDistribution;
  skill_requirements : list string;
  leadership_experience : list string;
  employee_tenure : list string;
  required_expertise : list string
}.

(** [errorData.detail], for an [errorData] that is not [null];
    [response.json()] resolves to any JSON value. *)
Definition detail_of (body : Js.Json) : option Js.Json := Js.property "detail" body.

(** The [Response] of [fetch]; [json] is what [response.json()] settles
    to, a rejection being an [Error]. *)
Record Response : Type := {
  ok : bool;
  statusText : string;
  json : result Js.Json
}.

(** What [await fetch(...)] leaves the function with. *)
Inductive FetchOutcome : Type :=
| FetchRejected (reason : string)
| Fetched (response : Response).

(** [getJobInsights]: the [catch] logs the error and throws it again, so
    an [Error] of the [try] block is the function's. Reading [detail]
    off a [null] body throws; else [new Error] takes its message from
    the string of [errorData.detail || `API error: ...`]. The body of a
    successful response is returned as it is. *)
Definition getJobInsights (engine : Js.Engine) (outcome : FetchOutcome) : result Js.Json :=
  match outcome with
  | FetchRejected reason => Error reason
  | Fetched response =>
      if negb (ok response) then
        match json response with
        | Error reason => Error reason
        | Ok Js.JNull => Error (Js.null_property engine)
        | Ok errorData =>
            Error (Js.ToString engine
                     (Js.or_else (detail_of errorData)
                        (Js.JString ("API error: " +:+ statusText response))))
        end
      else json response
  end.

End Http.

(** ** src/App.tsx *)

Module App.

(** Line 199: [insight.text.split('*').map(s => s.trim()).filter(Boolean)]. *)
Definition points (text : string) : list string :=
  List.filter Js.Boolean (map Js.trim (Js.split "*" text)).

End App.

Import Gemini.

(** The distribution of two whole numbers. *)
Definition distribution (t s : Z) : SkillDistribution :=
  {| technical := Js.num t; soft := Js.num s |}.

(** ** The words of the specification *)

(** The exact value of a finite number. *)
Definition value (x : Js.number) : option Q :=
  match x with
  | S754_zero _ => Some 0%Q
  | S754_finite s m (Zneg k) => Some (cond_Zopp s (Zpos m) # 2 ^ k)%Q
  | S754_finite s m e => Some (inject_Z (cond_Zopp s (Zpos m) * 2 ^ e))
  | S754_infinity _ => None
  | S754_nan => None
  end.

(** [r] is [x] rounded: the nearest integer, the upper one at a half. *)
Definition rounds_to (x : Q) (r : Z) : Prop :=
  (inject_Z r - (1 # 2) <= x /\ x < inject_Z r + (1 # 2))%Q.


(** The invariant of a skill distribution, on the exact values. *)
Definition distribution_invariant (sd : SkillDistribution) : Prop :=
  exists t s : Q,
    value (technical sd) = Some t /\ value (soft sd) = Some s /\
    (0 <= t /\ 0 <= s /\ t + s == 100)%Q.

(** The invariant, as a test. *)
Definition keeps_invariant (sd : SkillDistribution) : bool :=
  match value (technical sd), value (soft sd) with
  | Some t, Some s => Qle_bool 0 t && Qle_bool 0 s && Qeq_bool (t + s) 100
  | _, _ => false
  end.

(** A test on every pair of the numbers of a list. *)
Definition all_pairs (numbers : list Z) (test : Z -> Z -> bool) : bool :=
  forallb (fun t => forallb (test t) numbers) numbers.

(** The whole numbers from 0 to 100, and those from -50 to 50. *)
Definition percentages : list Z := map Z.of_nat (seq 0 101).

Definition small_numbers : list Z := map (fun i => (Z.of_nat i - 50)%Z) (seq 0 101).

(** The sum of a distribution, as the code takes it. *)
Definition sum (sd : SkillDistribution) : Js.number := Js.add (technical sd) (soft sd).

(** A distribution of whole percentages is normalised to one that keeps
    the invariant and whose sum is 100. *)
Definition percentages_test (t s : Z) : bool :=
  let normalized := normalizeSkillDistribution (distribution t s) in
  keeps_invariant normalized && Js.strict_eq (sum normalized) (Js.num 100).

(** A distribution of small numbers is normalised to one whose sum is
    100 when its own sum is not negative, and else has a sum that the
    code finds neither positive nor zero, and is not normalised to one
    whose sum is 100. *)
Definition small_numbers_test (t s : Z) : bool :=
  let normalized := normalizeSkillDistribution (distribution t s) in
  if (0 <=? t + s)%Z then Js.strict_eq (sum normalized) (Js.num 100)
  else negb (Js.gt (sum (distribution t s)) (Js.num 0))
       && negb (Js.strict_eq (sum (distribution t s)) (Js.num 0))
       && negb (Js.strict_eq (sum normalized) (Js.num 100)).

(** The raw response [data] has an entry for the key [k]. *)
Definition has_entry_for (k : string) (data : InsightData) : Prop :=
  exists entries entry,
    keyInsights data = Some entries /\ entry ∈ entries /\ icon entry = k.

(** The titles of the fixed table, in the fixed order of the keys. *)
Definition fixed_titles : list (option string) :=
  [Some "Skill Requirements"; Some "Leadership Experience";
   Some "Employee Tenure"; Some "Required Expertise"].

(** Normalisation of [data] gives a result whose categories are the four
    keys in the fixed order, under the fixed titles. *)
Definition normalizes_in_order (data : InsightData) : Prop :=
  exists normalized categories,
    generateInsights (Parsed data) = Ok normalized /\
    keyInsights normalized = Some categories /\
    map icon categories = orderedIcons /\
    map title categories = fixed_titles.

(** An already normalised result: four categories in the fixed order,
    under the fixed titles, and a distribution whose sum is 100 (the sum
    the code takes: whenever the exact sum is 100, so is this one). *)
Definition is_normalized (data : InsightData) : Prop :=
  exists sd categories,
    skillDistribution data = Some sd /\
    keyInsights data = Some categories /\
    map icon categories = orderedIcons /\
    map title categories = fixed_titles /\
    Js.strict_eq (Js.add (technical sd) (soft sd)) (Js.num 100) = true.

(** The ways in which [generateInsights] can fail. *)
Inductive failure_path : ApiOutcome -> Prop :=
| transport_failure (reason : string) :
    failure_path (Rejected reason)
| parse_failure (reason : string) :
    failure_path (Unparsable reason)
| missing_skillDistribution (data : InsightData) :
    skillDistribution data = None -> failure_path (Parsed data)
| missing_keyInsights (data : InsightData) :
    keyInsights data = None -> failure_path (Parsed data)
| fewer_than_four (data : InsightData) (entries : list KeyInsight) :
    keyInsights data = Some entries -> (length entries < 4)%nat ->
    failure_path (Parsed data)
| missing_category (data : InsightData) (k : string) :
    k ∈ orderedIcons -> ~ has_entry_for k data -> failure_path (Parsed data).

(** The client fails with the [detail] of the body of [response] as its
    message. *)
Definition fails_with_detail (engine : Js.Engine) (response : Http.Response) : Prop :=
  forall body detail,
    Http.json response = Ok body ->
    Http.detail_of body = Some (Js.JString detail) ->
    Http.getJobInsights engine (Http.Fetched response) = Error detail.

(** [c] occurs in [s]. *)
Fixpoint occurs (c : ascii) (s : string) : Prop :=
  match s with
  | EmptyString => False
  | String c' rest => c' = c \/ occurs c rest
  end.

(** [s] has white space only. *)
Definition blank (s : string) : Prop :=
  forall c, occurs c s -> Js.is_whitespace c = true.

Definition starts_blank (s : string) : Prop :=
  exists c rest, s = String c rest /\ Js.is_whitespace c = true.

Definition ends_blank (s : string) : Prop :=
  exists front c, s = front +:+ String c "" /\ Js.is_whitespace c = true.

(** [bullet] is [segment] without the white space at its two ends. *)
Definition is_trim_of (segment bullet : string) : Prop :=
  exists leading trailing,
    segment = leading +:+ bullet +:+ trailing /\
    blank leading /\ blank trailing /\
    ~ starts_blank bullet /\ ~ ends_blank bullet.

(** [bullets] is what the split of [text] on ['*'] gives: the segments
    between the stars, each trimmed, the empty ones left out. *)
Definition is_bullet_split (text : string) (bullets : list string) : Prop :=
  exists segments trimmed,
    segments <> [] /\
    text = String.concat "*" segments /\
    Forall (fun segment => ~ occurs "*" segment) segments /\
    Forall2 is_trim_of segments trimmed /\
    bullets = filter (fun bullet => bullet <> "") trimmed.

(** ** Responses to run the code on *)

Definition LF : string := String "010" "".

Definition rate_limited : Http.Response :=
  {| Http.ok := false;
     Http.statusText := "Too Many Requests";
     Http.json := Ok (Js.JObject [("detail", Js.JString "rate limited")]) |}.

Definition empty_detail : Http.Response :=
  {| Http.ok := false;
     Http.statusText := "Too Many Requests";
     Http.json := Ok (Js.JObject [("detail", Js.JString "")]) |}.

(** The body of a validation error: its detail is a list of objects. *)
Definition validation_errors : Http.Response :=
  {| Http.ok := false;
     Http.statusText := "Unprocessable Entity";
     Http.json :=
       Ok (Js.JObject
             [("detail", Js.JArray [Js.JObject [("msg", Js.JString "field required")]])]) |}.

(** A detail that is an empty list. *)
Definition no_details : Http.Response :=
  {| Http.ok := false;
     Http.statusText := "Bad Request";
     Http.json := Ok (Js.JObject [("detail", Js.JArray [])]) |}.

(** An engine to run the examples with: the message is the one of V8. No
    example turns a number into text, and the text of a number, which
    none of them reads, is left a constant here. *)
Definition an_engine : Js.Engine :=
  {| Js.Number_toString := fun _ => "NaN";
     Js.null_property := "Cannot read properties of null (reading 'detail')" |}.

Definition insight (icon' text' : string) : KeyInsight :=
  {| title := None; text := text'; icon := icon' |}.

(** The four categories out of order, one of them with a title of the
    service's own. *)
Definition shuffled_entries : list KeyInsight :=
  [ {| title := Some "How long people stay"; text := "* Two years"; icon := "tenure" |};
    insight "skills" "* SQL * Python";
    insight "expertise" "* Statistics";
    insight "leadership" "* Leads a small team" ].

Definition shuffled_response : InsightData :=
  {| skillDistribution := Some (distribution 70 20);
     keyInsights := Some shuffled_entries |}.

Definition response_without_distribution : InsightData :=
  {| skillDistribution := None; keyInsights := Some shuffled_entries |}.

(** Four entries, none of them for [tenure]. *)
Definition response_without_tenure : InsightData :=
  {| skillDistribution := Some (distribution 60 40);
     keyInsights := Some [ insight "skills" "* SQL"; insight "leadership" "* Mentoring";
                           insight "expertise" "* Statistics"; insight "skills" "* Excel" ] |}.

(** Two entries for [skills]. *)
Definition response_with_duplicates : InsightData :=
  {| skillDistribution := Some (distribution 60 40);
     keyInsights := Some ([ insight "skills" "* SQL"; insight "leadership" "* Mentoring" ]
                            ++ insight "skills" "* Excel"
                            :: [ insight "tenure" "* Two years"; insight "expertise" "* Statistics" ]) |}.


Definition normalized_response : InsightData :=
  {| skillDistribution := Some (distribution 78 22);
     keyInsights := Some [ entitled "skills" (insight "skills" "* SQL * Python");
                           entitled "leadership" (insight "leadership" "* Leads a small team");
                           entitled "tenure" (insight "tenure" "* Two years");
                           entitled "expertise" (insight "expertise" "* Statistics") ] |}.

(** ** The App component: its state, a submission, what is rendered *)

(** The catalogs, as the HTTP variant of App.tsx inlines them. *)
Module Catalog.

Definition JOB_TITLES : list string :=
  [ "Business Analyst"; "Data Analyst"; "Software Engineer"; "Product Manager";
    "Marketing Specialist"; "Financial Analyst"; "Human Resources Generalist";
    "Operations Manager"; "UI/UX Designer"; "Cybersecurity Analyst";
    "Management Consultant"; "Investment Banking Analyst" ].

Definition JOB_LEVELS : list string :=
  [ "Fresher"; "Junior"; "Mid-Level"; "Senior"; "Lead"; "Principal";
    "Director"; "VP"; "Executive" ].

End Catalog.

(** What the two variants of the component share. [D] is the type of the
    insights, [Outcome] what the request to the service settles to and
    [service] the client ([generateInsights] or [getJobInsights]);
    [fallback] is the message of the [catch] for an error without one. *)
Module Ui.

Section Component.

Variable D : Type.
Variable Outcome : Type.
Variable service : Outcome -> result D.
Variable fallback : string.

(** The five [useState] cells. *)
Record State : Type := {
  jobTitle : string;
  jobLevel : string;
  isLoading : bool;
  error : option string;
  insights : option D
}.

Definition initial : State :=
  {| jobTitle := Catalog.JOB_TITLES !!! 0%nat;
     jobLevel := Catalog.JOB_LEVELS !!! 0%nat;
     isLoading := false;
     error := None;
     insights := None |}.

(** The [onChange] of the two selects. *)
Definition setJobTitle (value : string) (s : State) : State :=
  {| jobTitle := value; jobLevel := jobLevel s; isLoading := isLoading s;
     error := error s; insights := insights s |}.

Definition setJobLevel (value : string) (s : State) : State :=
  {| jobTitle := jobTitle s; jobLevel := value; isLoading := isLoading s;
     error := error s; insights := insights s |}.

(** [handleSubmit] up to its [await]:
    [setIsLoading(true); setError(null); setInsights(null)]. *)
Definition begin_submit (s : State) : State :=
  {| jobTitle := jobTitle s; jobLevel := jobLevel s; isLoading := true;
     error := None; insights := None |}.

(** [handleSubmit] from its [await] on: [setInsights(data)], or in the
    [catch] [setError(err.message || fallback)]; then, in the [finally],
    [setIsLoading(false)]. *)
Definition settle (settled : result D) (s : State) : State :=
  match settled with
  | Ok data =>
      {| jobTitle := jobTitle s; jobLevel := jobLevel s; isLoading := false;
         error := error s; insights := Some data |}
  | Error message =>
      {| jobTitle := jobTitle s; jobLevel := jobLevel s; isLoading := false;
         error := Some (Js.or (Some message) fallback); insights := insights s |}
  end.

Definition handleSubmit (outcome : Outcome) (s : State) : State :=
  settle (service outcome) (begin_submit s).

(** The four blocks below the form, each under its condition. *)
Inductive Panel : Type :=
| Spinner
| ErrorBox (message : string)
| Placeholder
| Results (data : D).

(** [x] is [null], so that [!x] holds. *)
Definition is_null {A : Type} (x : option A) : bool :=
  match x with
  | Some _ => false
  | None => true
  end.

(** [!error]: [error] is [null] or the empty string. *)
Definition no_error (error : option string) : bool :=
  match error with
  | Some message => negb (Js.Boolean message)
  | None => true
  end.

(** The blocks that are rendered, for insights that are of the type the
    component declares for them, as those of [generateInsights] are: the
    block of the results then renders. The HTTP variant holds whatever
    JSON value the service sent, and the rendering of one without the
    fields that the component reads throws: [render] is not for it. *)
Definition render (s : State) : list Panel :=
  (if isLoading s then [Spinner] else [])
  ++ match error s with
     | Some message => if Js.Boolean message then [ErrorBox message] else []
     | None => []
     end
  ++ (if negb (isLoading s) && is_null (insights s) && no_error (error s)
      then [Placeholder] else [])
  ++ match insights s with
     | Some data => [Results data]
     | None => []
     end.

(** What can happen to the component. The selects and the button are
    [disabled={isLoading}]; a request settles while the component is
    loading. *)
Inductive step : State -> State -> Prop :=
| select_title (s : State) (value : string) :
    isLoading s = false -> step s (setJobTitle value s)
| select_level (s : State) (value : string) :
    isLoading s = false -> step s (setJobLevel value s)
| submit (s : State) :
    isLoading s = false -> step s (begin_submit s)
| settles (s : State) (outcome : Outcome) :
    isLoading s = true -> step s (settle (service outcome) s).

Definition reachable (s : State) : Prop := rtc step initial s.

(** The states in which one thing is on display, and the panel that
    displays it: nothing yet, a request on its way, the data of a
    request that succeeded, the message of one that failed. *)
Inductive displays : State -> Panel -> Prop :=
| displays_nothing (title level : string) :
    displays {| jobTitle := title; jobLevel := level; isLoading := false;
                error := None; insights := None |}
             Placeholder
| displays_loading (title level : string) :
    displays {| jobTitle := title; jobLevel := level; isLoading := true;
                error := None; insights := None |}
             Spinner
| displays_data (title level : string) (outcome : Outcome) (data : D) :
    service outcome = Ok data ->
    displays {| jobTitle := title; jobLevel := level; isLoading := false;
                error := None; insights := Some data |}
             (Results data)
| displays_failure (title level : string) (outcome : Outcome) (message : string) :
    service outcome = Error message ->
    displays {| jobTitle := title; jobLevel := level; isLoading := false;
                error := Some (Js.or (Some message) fallback); insights := None |}
             (ErrorBox (Js.or (Some message) fallback)).

End Component.

Arguments jobTitle {D} _.
Arguments jobLevel {D} _.
Arguments isLoading {D} _.
Arguments error {D} _.
Arguments insights {D} _.
Arguments Spinner {D}.
Arguments ErrorBox {D} message.
Arguments Placeholder {D}.
Arguments Results {D} data.
Arguments render {D} s.

End Ui.

(** src/App.tsx, around [generateInsights]. *)
Module GeminiApp.

Definition fallback : string := "An unknown error occurred.".

Definition handleSubmit : ApiOutcome -> Ui.State InsightData -> Ui.State InsightData :=
  Ui.handleSubmit InsightData ApiOutcome generateInsights fallback.

Definition reachable : Ui.State InsightData -> Prop :=
  Ui.reachable InsightData ApiOutcome generateInsights fallback.

(** Lines 12 to 17, each component under its name. *)
Definition iconMap : gmap string string :=
  <["skills" := "SkillsIcon"]>
  (<["leadership" := "LeadershipIcon"]>
  (<["tenure" := "TenureIcon"]>
  (<["expertise" := "ExpertiseIcon"]> ∅))).

(** One card of the grid: lines 197 to 213. [IconComponent] is
    [undefined] when [iconMap] has no such icon. *)
Record Card : Type := {
  key : option string;
  IconComponent : option string;
  heading : option string;
  items : list string
}.

Definition card (insight : KeyInsight) : Card :=
  {| key := title insight;
     IconComponent := iconMap !! icon insight;
     heading := title insight;
     items := App.points (text insight) |}.

(** [insights.keyInsights.map(...)]: nothing to map without [keyInsights]. *)
Definition cards (data : InsightData) : option (list Card) :=
  match keyInsights data with
  | Some categories => Some (map card categories)
  | None => None
  end.

End GeminiApp.

(** The HTTP variant of App.tsx, around [getJobInsights]. *)
Module HttpApp.

Definition fallback : string := "Failed to fetch job insights. Please try again.".

(** The state of the component holds the body that the client returned,
    whatever JSON value it is: [setInsights(data)] is called with it. A
    body that is [null] is held as [Some Js.JNull]. What the component
    renders from a body is not modelled; when the rendering throws, the
    component is unmounted and takes no further step, so that the states
    it goes through are among the reachable ones. *)
Definition handleSubmit (engine : Js.Engine) :
    Http.FetchOutcome -> Ui.State Js.Json -> Ui.State Js.Json :=
  Ui.handleSubmit Js.Json Http.FetchOutcome (Http.getJobInsights engine) fallback.

Definition reachable (engine : Js.Engine) : Ui.State Js.Json -> Prop :=
  Ui.reachable Js.Json Http.FetchOutcome (Http.getJobInsights engine) fallback.

(** The two numbers of the pie chart. *)
Definition pie (data : Http.InsightData) : list Js.number :=
  [ Http.technical_percentage (Http.skill_distribution data);
    Http.soft_percentage (Http.skill_distribution data) ].

End HttpApp.

Definition analyst_insights : Http.InsightData :=
  {| Http.job_title := "Data Analyst";
     Http.career_level := "Junior";
     Http.skill_distribution :=
       {| Http.technical_percentage := Js.num 70; Http.soft_percentage := Js.num 30 |};
     Http.skill_requirements := ["SQL"; "Python"];
     Http.leadership_experience := ["Leads a small team"];
     Http.employee_tenure := ["Two years"];
     Http.required_expertise := ["Statistics"] |}.


(** ** The chart effect

    The [useEffect] of the component and its cleanup, over the charts
    that exist: a chart is a number, [new Chart] makes the next one, and
    [live] has the charts made and not yet destroyed, with their data. *)
Module ChartEffect.

Section Effect.

Variable D : Type.
Variable pie : D -> list Js.number.

Record Store : Type := {
  chartRef : option nat;
  live : gmap nat (list Js.number);
  made : nat
}.

Definition empty : Store :=
  {| chartRef := None; live := ∅; made := 0 |}.

(** [chart.destroy()] *)
Definition destroy (chart : nat) (st : Store) : Store :=
  {| chartRef := chartRef st; live := delete chart (live st); made := made st |}.

(** [chartRef.current = new Chart(ctx, ...)] *)
Definition new_Chart (data : list Js.number) (st : Store) : Store :=
  {| chartRef := Some (made st);
     live := <[made st := data]> (live st);
     made := S (made st) |}.

(** The body of the effect, for the [insights] of the render, with
    [canvas] telling whether [canvasRef.current] is there and [ctx]
    whether [getContext('2d')] gives a context. *)
Definition effect (insights : option D) (canvas ctx : bool) (st : Store) : Store :=
  match insights with
  | Some data =>
      if canvas then
        let st' :=
          match chartRef st with
          | Some chart => destroy chart st
          | None => st
          end in
        if ctx then new_Chart (pie data) st' else st'
      else st
  | None => st
  end.

(** The function the effect returns. *)
Definition cleanup (st : Store) : Store :=
  match chartRef st with
  | Some chart =>
      {| chartRef := None; live := delete chart (live st); made := made st |}
  | None => st
  end.

(** A run of the effect or of its cleanup. *)
Inductive Run : Type :=
| RunEffect (insights : option D) (canvas ctx : bool)
| RunCleanup.

Definition run (st : Store) (r : Run) : Store :=
  match r with
  | RunEffect insights canvas ctx => effect insights canvas ctx st
  | RunCleanup => cleanup st
  end.

Definition runs (rs : list Run) : Store := foldl run empty rs.

End Effect.

End ChartEffect.

(** The text of a category in the format the prompt asks for (lines 35
    and 54 of the service): each point on a line of its own, after an
    asterisk and a space. *)
Definition bulleted (points : list string) : string :=
  String.concat LF (map (fun point => "* " +:+ point) points).

(** A point that the split gives back as it is. *)
Definition clean (point : string) : Prop :=
  point <> "" /\ ~ occurs "*" point /\ ~ starts_blank point /\ ~ ends_blank point.

(** Closes [~ occurs c s] for a literal [s]. *)
Ltac no_occurrence :=
  let H := fresh "H" in
  cbn [occurs]; intros H;
  repeat (destruct H as [H | H]; [discriminate H |]); exact H.

(** * Theorems *)

(** ** Numbers *)

Lemma rounds_to_unique (x : Q) (r r' : Z) :
  rounds_to x r -> rounds_to x r' -> r = r'.
Proof.
  unfold rounds_to. intros [Hlo Hhi] [Hlo' Hhi'].
  assert (inject_Z r < inject_Z r' + 1)%Q as H1 by lra.
  assert (inject_Z r' < inject_Z r + 1)%Q as H2 by lra.
  change 1%Q with (inject_Z 1) in H1, H2.
  rewrite <- inject_Z_plus, <- Zlt_Qlt in H1, H2. lia.
Qed.




Lemma strict_eq_hundred (x : Js.number) :
  Js.strict_eq x (Js.num 100) = true -> Js.strict_eq x (Js.num 0) = false.
Proof. now destruct x as [s | [|] | | [|] m e]. Qed.

Lemma below_zero (x : Js.number) :
  SFltb x (Js.num 0) = true ->
  Js.gt x (Js.num 0) = false /\ Js.strict_eq x (Js.num 0) = false.
Proof. now destruct x as [s | [|] | | [|] m e]. Qed.

(** ** The skill distribution *)

Section Distribution.

Variable sd : SkillDistribution.

Let total : Js.number := Js.add (technical sd) (soft sd).



Lemma normalize_unchanged :
  Js.strict_eq total (Js.num 100) = true \/ SFltb total (Js.num 0) = true ->
  normalizeSkillDistribution sd = sd.
Proof.
  intros H. unfold normalizeSkillDistribution. fold total.
  destruct H as [H | H].
  - now rewrite H, andb_false_r, (strict_eq_hundred total H).
  - destruct (below_zero total H) as [-> ->]. reflexivity.
Qed.

End Distribution.

(** ** The lookup from icons to entries *)

Lemma new_Map_insightsMap (entries : list KeyInsight) (m : gmap string KeyInsight) (k : string) :
  foldl (fun m kv => <[kv.1 := kv.2]> m) m (map (fun k => (icon k, k)) entries) !! k =
    match last (filter (fun entry => icon entry = k) entries) with
    | Some entry => Some entry
    | None => m !! k
    end.
Proof.
  revert m. induction entries as [| entry entries IH]; intros m; [reflexivity |].
  cbn [map foldl fst snd]. rewrite IH, filter_cons.
  destruct (decide (icon entry = k)) as [-> | Hne].
  - rewrite last_cons, lookup_insert_eq.
    now destruct (last (filter _ entries)).
  - now rewrite lookup_insert_ne.
Qed.

Lemma insightsMap_lookup (entries : list KeyInsight) (k : string) :
  insightsMap entries !! k = last (filter (fun entry => icon entry = k) entries).
Proof.
  unfold insightsMap, Js.new_Map. rewrite new_Map_insightsMap, lookup_empty.
  now destruct (last _).
Qed.

Lemma insightsMap_last_occurrence (before after : list KeyInsight) (entry : KeyInsight) :
  Forall (fun later => icon later <> icon entry) after ->
  insightsMap (before ++ entry :: after) !! icon entry = Some entry.
Proof.
  intros Hafter. rewrite insightsMap_lookup, filter_app, filter_cons_True by reflexivity.
  assert (filter (fun later => icon later = icon entry) after = []) as ->.
  { induction Hafter as [| later after Hne _ IH]; [reflexivity |].
    now rewrite filter_cons_False. }
  apply last_snoc.
Qed.

Lemma insightsMap_Some (entries : list KeyInsight) (k : string) (entry : KeyInsight) :
  insightsMap entries !! k = Some entry -> entry ∈ entries /\ icon entry = k.
Proof.
  rewrite insightsMap_lookup. intros Hlast.
  apply last_Some_elem_of in Hlast. now apply list_elem_of_filter in Hlast as [? ?].
Qed.

Lemma insightsMap_None (entries : list KeyInsight) (k : string) :
  insightsMap entries !! k = None <-> Forall (fun entry => icon entry <> k) entries.
Proof.
  rewrite insightsMap_lookup, last_None. split.
  - intros Hnil. apply Forall_forall. intros entry Hin Hk.
    assert (entry ∈ filter (fun entry => icon entry = k) entries) as Hf
      by now apply list_elem_of_filter.
    rewrite Hnil in Hf. inversion Hf.
  - intros Hall. induction Hall as [| entry entries Hne _ IH]; [reflexivity |].
    now rewrite filter_cons_False.
Qed.

(** ** The categories in order *)

Lemma orderedInsights_all (entries : list KeyInsight) (e1 e2 e3 e4 : KeyInsight) :
  insightsMap entries !! "skills" = Some e1 ->
  insightsMap entries !! "leadership" = Some e2 ->
  insightsMap entries !! "tenure" = Some e3 ->
  insightsMap entries !! "expertise" = Some e4 ->
  orderedInsights entries =
    [entitled "skills" e1; entitled "leadership" e2;
     entitled "tenure" e3; entitled "expertise" e4].
Proof.
  intros H1 H2 H3 H4. unfold orderedInsights, orderedIcons.
  cbn [omap list_omap]. now rewrite H1, H2, H3, H4.
Qed.

Lemma orderedInsights_missing (entries : list KeyInsight) (k : string) :
  k ∈ orderedIcons -> insightsMap entries !! k = None ->
  (length (orderedInsights entries) < 4)%nat.
Proof.
  intros Hk Hnone. unfold orderedInsights, orderedIcons in *.
  cbn [omap list_omap].
  repeat (apply elem_of_cons in Hk as [-> | Hk]); [.. | inversion Hk];
    rewrite Hnone;
    repeat (match goal with |- context [insightsMap entries !! ?i] =>
              destruct (insightsMap entries !! i) end);
    cbn [length]; lia.
Qed.

Lemma orderedInsights_four (entries : list KeyInsight) :
  length (orderedInsights entries) = 4%nat ->
  exists e1 e2 e3 e4,
    insightsMap entries !! "skills" = Some e1 /\
    insightsMap entries !! "leadership" = Some e2 /\
    insightsMap entries !! "tenure" = Some e3 /\
    insightsMap entries !! "expertise" = Some e4.
Proof.
  intros Hlen.
  assert (forall k, k ∈ orderedIcons -> is_Some (insightsMap entries !! k)) as Hall.
  { intros k Hk. destruct (insightsMap entries !! k) eqn:Hlook; [eauto |].
    pose proof (orderedInsights_missing entries k Hk Hlook). lia. }
  destruct (Hall "skills") as [e1 H1]; [unfold orderedIcons; set_solver |].
  destruct (Hall "leadership") as [e2 H2]; [unfold orderedIcons; set_solver |].
  destruct (Hall "tenure") as [e3 H3]; [unfold orderedIcons; set_solver |].
  destruct (Hall "expertise") as [e4 H4]; [unfold orderedIcons; set_solver |].
  now exists e1, e2, e3, e4.
Qed.

Lemma orderedIcons_NoDup : NoDup orderedIcons.
Proof. apply (bool_decide_unpack _). vm_compute. exact I. Qed.

Lemma entries_cover_length (entries : list KeyInsight) :
  (forall k, k ∈ orderedIcons -> exists entry, entry ∈ entries /\ icon entry = k) ->
  (4 <= length entries)%nat.
Proof.
  intros Hcover.
  assert (orderedIcons ⊆+ map icon entries) as Hsub.
  { apply NoDup_submseteq.
    - apply orderedIcons_NoDup.
    - intros k Hk. destruct (Hcover k Hk) as (entry & Hin & <-).
      now apply (list_elem_of_fmap_2 icon). }
  apply submseteq_length in Hsub. now rewrite length_map in Hsub.
Qed.

Lemma orderedInsights_length (entries : list KeyInsight) :
  (length (orderedInsights entries) <= 4)%nat.
Proof.
  unfold orderedInsights, orderedIcons. cbn [omap list_omap].
  repeat (match goal with |- context [insightsMap entries !! ?i] =>
            destruct (insightsMap entries !! i) end);
    cbn [length]; lia.
Qed.

Lemma fixed_titles_lookup :
  map (fun k => insightTitles !! k) orderedIcons = fixed_titles.
Proof. vm_compute. reflexivity. Qed.

Lemma has_entry_lookup (data : InsightData) (entries : list KeyInsight) (k : string) :
  keyInsights data = Some entries ->
  has_entry_for k data <-> is_Some (insightsMap entries !! k).
Proof.
  intros Hentries. split.
  - intros (entries' & entry & Heq & Hin & Hk).
    rewrite Hentries in Heq. injection Heq as <-.
    destruct (insightsMap entries !! k) eqn:Hlook; [eauto |].
    apply insightsMap_None in Hlook.
    rewrite Forall_forall in Hlook. now destruct (Hlook entry Hin).
  - intros [entry Hlook]. apply insightsMap_Some in Hlook as [Hin Hk].
    now exists entries, entry.
Qed.

(** ** What the [try] block returns *)

Lemma normalize_Ok (data normalized : InsightData) :
  normalize data = Ok normalized ->
  exists sd entries,
    skillDistribution data = Some sd /\
    keyInsights data = Some entries /\
    (4 <= length entries)%nat /\
    length (orderedInsights entries) = 4%nat /\
    normalized = {| skillDistribution := Some (normalizeSkillDistribution sd);
                    keyInsights := Some (orderedInsights entries) |}.
Proof.
  unfold normalize.
  destruct (skillDistribution data) as [sd |]; [| discriminate].
  destruct (keyInsights data) as [entries |]; [| discriminate].
  destruct (Nat.ltb_spec (length entries) 4); [discriminate |].
  destruct (Nat.ltb_spec (length (orderedInsights entries)) 4); [discriminate |].
  intros [= <-]. exists sd, entries.
  pose proof (orderedInsights_length entries). repeat split; [assumption | lia].
Qed.

Lemma normalize_complete (data : InsightData) (sd : SkillDistribution)
    (entries : list KeyInsight) (e1 e2 e3 e4 : KeyInsight) :
  skillDistribution data = Some sd ->
  keyInsights data = Some entries ->
  insightsMap entries !! "skills" = Some e1 ->
  insightsMap entries !! "leadership" = Some e2 ->
  insightsMap entries !! "tenure" = Some e3 ->
  insightsMap entries !! "expertise" = Some e4 ->
  normalize data =
    Ok {| skillDistribution := Some (normalizeSkillDistribution sd);
          keyInsights := Some [entitled "skills" e1; entitled "leadership" e2;
                               entitled "tenure" e3; entitled "expertise" e4] |}.
Proof.
  intros Hsd Hentries H1 H2 H3 H4. unfold normalize. rewrite Hsd, Hentries.
  assert (4 <= length entries)%nat as Hlen.
  { apply entries_cover_length. intros k Hk. unfold orderedIcons in Hk.
    repeat (apply elem_of_cons in Hk as [-> | Hk]); [.. | inversion Hk];
      eexists; eapply insightsMap_Some; eassumption. }
  destruct (Nat.ltb_spec (length entries) 4); [lia |].
  now rewrite (orderedInsights_all entries e1 e2 e3 e4).
Qed.

Lemma normalize_missing (data : InsightData) (k : string) :
  k ∈ orderedIcons -> ~ has_entry_for k data ->
  exists message, normalize data = Error message.
Proof.
  intros Hk Hmissing. unfold normalize.
  destruct (skillDistribution data) as [sd |]; [| eauto].
  destruct (keyInsights data) as [entries |] eqn:Hentries; [| eauto].
  destruct (Nat.ltb_spec (length entries) 4); [eauto |].
  assert (insightsMap entries !! k = None) as Hlook.
  { destruct (insightsMap entries !! k) eqn:Hlook; [| reflexivity].
    destruct Hmissing. apply (has_entry_lookup data entries k Hentries). eauto. }
  pose proof (orderedInsights_missing entries k Hk Hlook).
  destruct (Nat.ltb_spec (length (orderedInsights entries)) 4); [eauto | lia].
Qed.

(** ** [generateInsights] *)

Lemma generateInsights_Ok (outcome : ApiOutcome) (normalized : InsightData) :
  generateInsights outcome = Ok normalized <->
  exists data, outcome = Parsed data /\ normalize data = Ok normalized.
Proof.
  unfold generateInsights, try_block. split.
  - destruct outcome as [reason | reason | data]; try discriminate.
    destruct (normalize data) eqn:Hn; [| discriminate].
    intros [= <-]. eauto.
  - intros (data & -> & ->). reflexivity.
Qed.

Lemma generateInsights_Error (outcome : ApiOutcome) (message : string) :
  generateInsights outcome = Error message -> message = failure_message.
Proof.
  unfold generateInsights. destruct (try_block outcome); [discriminate |].
  now intros [= <-].
Qed.

Lemma generateInsights_fails (outcome : ApiOutcome) (message : string) :
  try_block outcome = Error message ->
  generateInsights outcome = Error failure_message.
Proof. unfold generateInsights. now intros ->. Qed.

Lemma generateInsights_missing (data : InsightData) (k : string) :
  k ∈ orderedIcons -> ~ has_entry_for k data ->
  generateInsights (Parsed data) = Error failure_message.
Proof.
  intros Hk Hmissing.
  destruct (normalize_missing data k Hk Hmissing) as [message Hn].
  now apply (generateInsights_fails (Parsed data) message).
Qed.

Lemma generateInsights_distribution (data normalized : InsightData) :
  generateInsights (Parsed data) = Ok normalized ->
  exists sd,
    skillDistribution data = Some sd /\
    skillDistribution normalized = Some (normalizeSkillDistribution sd).
Proof.
  intros Hok. apply generateInsights_Ok in Hok as (data' & [= <-] & Hn).
  apply normalize_Ok in Hn as (sd & entries & Hsd & _ & _ & _ & ->). eauto.
Qed.

(** ** The categories of the result *)

(** C1, as the code has it: for every raw response that has a skill
    distribution and, for each of the four keys, at least one entry, the
    result of normalisation lists the categories in the order skills,
    leadership, tenure, expertise, whatever the order of the entries, and
    each title is the one of the fixed table, whatever title the service gave. *)
Theorem C1_categories_in_fixed_order (data : InsightData) :
  is_Some (skillDistribution data) ->
  (forall k, k ∈ orderedIcons -> has_entry_for k data) ->
  normalizes_in_order data.
Proof.
  intros [sd Hsd] Hcover.
  destruct (Hcover "skills") as (entries & _ & Hentries & _);
    [unfold orderedIcons; set_solver |].
  assert (forall k, k ∈ orderedIcons -> is_Some (insightsMap entries !! k)) as Hall.
  { intros k Hk. now apply (has_entry_lookup data entries k Hentries), Hcover. }
  destruct (Hall "skills") as [e1 H1]; [unfold orderedIcons; set_solver |].
  destruct (Hall "leadership") as [e2 H2]; [unfold orderedIcons; set_solver |].
  destruct (Hall "tenure") as [e3 H3]; [unfold orderedIcons; set_solver |].
  destruct (Hall "expertise") as [e4 H4]; [unfold orderedIcons; set_solver |].
  eexists _, _. split.
  { apply generateInsights_Ok. eexists. split; [reflexivity |].
    exact (normalize_complete data sd entries e1 e2 e3 e4 Hsd Hentries H1 H2 H3 H4). }
  split; [reflexivity |]. split.
  - apply insightsMap_Some in H1 as [_ H1], H2 as [_ H2], H3 as [_ H3], H4 as [_ H4].
    cbn [map entitled icon]. now rewrite H1, H2, H3, H4.
  - reflexivity.
Qed.

Example shuffled_normalized :
  generateInsights (Parsed shuffled_response) =
    Ok {| skillDistribution := Some (distribution 78 22);
          keyInsights :=
            Some [ {| title := Some "Skill Requirements";
                      text := "* SQL * Python"; icon := "skills" |};
                   {| title := Some "Leadership Experience";
                      text := "* Leads a small team"; icon := "leadership" |};
                   {| title := Some "Employee Tenure";
                      text := "* Two years"; icon := "tenure" |};
                   {| title := Some "Required Expertise";
                      text := "* Statistics"; icon := "expertise" |} ] |}.
Proof. vm_compute. reflexivity. Qed.

Lemma shuffled_entries_cover (sd : option SkillDistribution) (k : string) :
  k ∈ orderedIcons ->
  has_entry_for k {| skillDistribution := sd; keyInsights := Some shuffled_entries |}.
Proof.
  intros Hk. unfold orderedIcons in Hk.
  repeat (apply elem_of_cons in Hk as [-> | Hk]); [.. | inversion Hk];
    (apply (has_entry_lookup _ shuffled_entries); [reflexivity |]);
    eexists; vm_compute; reflexivity.
Qed.

Lemma C1_categories_in_fixed_order_witness : normalizes_in_order shuffled_response.
Proof.
  apply (C1_categories_in_fixed_order shuffled_response).
  - exists (distribution 70 20). reflexivity.
  - apply shuffled_entries_cover.
Defined.

(** C1, as the specification states it, fails on a response that has its
    four categories and no skill distribution: line 76 rejects it. *)
Lemma C1_counterexample :
  (forall k, k ∈ orderedIcons -> has_entry_for k response_without_distribution) /\
  ~ normalizes_in_order response_without_distribution.
Proof.
  split; [apply shuffled_entries_cover |].
  intros (normalized & categories & Hok & _). discriminate Hok.
Qed.

(** C6: for every raw response in which one of the four required keys has
    no entry, normalisation fails with an error and produces no result; a
    response without the tenure category is such a response. *)
Theorem C6_missing_category_fails (data : InsightData) (k : string) :
  k ∈ orderedIcons -> ~ has_entry_for k data ->
  generateInsights (Parsed data) = Error failure_message /\
  forall normalized, generateInsights (Parsed data) <> Ok normalized.
Proof.
  intros Hk Hmissing.
  pose proof (generateInsights_missing data k Hk Hmissing) as Hfail.
  split; [assumption |]. intros normalized Hok. congruence.
Qed.

Lemma response_without_tenure_missing : ~ has_entry_for "tenure" response_without_tenure.
Proof.
  intros Hhas.
  apply (has_entry_lookup response_without_tenure _ "tenure" eq_refl) in Hhas as [entry Hlook].
  vm_compute in Hlook. discriminate Hlook.
Qed.

Lemma C6_missing_category_fails_witness :
  generateInsights (Parsed response_without_tenure) = Error failure_message /\
  forall normalized, generateInsights (Parsed response_without_tenure) <> Ok normalized.
Proof.
  apply (C6_missing_category_fails response_without_tenure "tenure").
  - unfold orderedIcons. set_solver.
  - apply response_without_tenure_missing.
Defined.




Example duplicates_normalized :
  generateInsights (Parsed response_with_duplicates) =
    Ok {| skillDistribution := Some (distribution 60 40);
          keyInsights := Some [ entitled "skills" (insight "skills" "* Excel");
                                entitled "leadership" (insight "leadership" "* Mentoring");
                                entitled "tenure" (insight "tenure" "* Two years");
                                entitled "expertise" (insight "expertise" "* Statistics") ] |}.
Proof. vm_compute. reflexivity. Qed.

(** ** Idempotence *)

Lemma entitled_fixed (k : string) (category : KeyInsight) :
  title category = insightTitles !! k -> entitled k category = category.
Proof. destruct category. unfold entitled. cbn. now intros ->. Qed.

Lemma normalize_fixed (sd : SkillDistribution) (categories : list KeyInsight) :
  map icon categories = orderedIcons ->
  map title categories = fixed_titles ->
  normalizeSkillDistribution sd = sd ->
  normalize {| skillDistribution := Some sd; keyInsights := Some categories |} =
    Ok {| skillDistribution := Some sd; keyInsights := Some categories |}.
Proof.
  intros Hicons Htitles Hsd.
  destruct categories as [| c1 [| c2 [| c3 [| c4 [| c5 rest]]]]]; try discriminate Hicons.
  injection Hicons as I1 I2 I3 I4. injection Htitles as T1 T2 T3 T4.
  assert (insightsMap [c1; c2; c3; c4] !! "skills" = Some c1) as H1.
  { rewrite <- I1. apply (insightsMap_last_occurrence [] [c2; c3; c4] c1).
    repeat constructor; congruence. }
  assert (insightsMap [c1; c2; c3; c4] !! "leadership" = Some c2) as H2.
  { rewrite <- I2. apply (insightsMap_last_occurrence [c1] [c3; c4] c2).
    repeat constructor; congruence. }
  assert (insightsMap [c1; c2; c3; c4] !! "tenure" = Some c3) as H3.
  { rewrite <- I3. apply (insightsMap_last_occurrence [c1; c2] [c4] c3).
    repeat constructor; congruence. }
  assert (insightsMap [c1; c2; c3; c4] !! "expertise" = Some c4) as H4.
  { rewrite <- I4. apply (insightsMap_last_occurrence [c1; c2; c3] [] c4).
    constructor. }
  rewrite (normalize_complete {| skillDistribution := Some sd;
                                keyInsights := Some [c1; c2; c3; c4] |}
             sd [c1; c2; c3; c4] c1 c2 c3 c4 eq_refl eq_refl H1 H2 H3 H4).
  rewrite Hsd. now rewrite !entitled_fixed.
Qed.

(** C8: normalising an already normalised result (four categories in the
    fixed order, under the fixed titles, a distribution that sums to 100)
    gives the same result again. *)
Theorem C8_normalization_idempotent (data : InsightData) :
  is_normalized data -> generateInsights (Parsed data) = Ok data.
Proof.
  intros (sd & categories & Hsd & Hcategories & Hicons & Htitles & Hsum).
  destruct data as [sd' categories']. cbn in Hsd, Hcategories. subst sd' categories'.
  apply generateInsights_Ok. eexists. split; [reflexivity |].
  apply normalize_fixed; [assumption | assumption |].
  apply normalize_unchanged. now left.
Qed.

Lemma C8_normalization_idempotent_witness :
  generateInsights (Parsed normalized_response) = Ok normalized_response.
Proof.
  apply (C8_normalization_idempotent normalized_response).
  exists (distribution 78 22), (default [] (keyInsights normalized_response)).
  repeat split; reflexivity.
Defined.

(** ** Failures *)

Example try_block_messages :
  try_block (Parsed response_without_distribution) =
    Error "Invalid data structure received from API." /\
  try_block (Parsed response_without_tenure) =
    Error "API did not return all required key insights.".
Proof. split; vm_compute; reflexivity. Qed.

(** Every failure of [generateInsights] is one of the listed paths. *)
Lemma failure_path_complete (outcome : ApiOutcome) (message : string) :
  generateInsights outcome = Error message -> failure_path outcome.
Proof.
  destruct outcome as [reason | reason | data]; [constructor | constructor |].
  unfold generateInsights, try_block, normalize.
  destruct (skillDistribution data) as [sd |] eqn:Hsd;
    [| intros _; now apply missing_skillDistribution].
  destruct (keyInsights data) as [entries |] eqn:Hentries;
    [| intros _; now apply missing_keyInsights].
  destruct (Nat.ltb_spec (length entries) 4) as [Hshort | Hlong];
    [intros _; now apply (fewer_than_four data entries) |].
  destruct (Nat.ltb_spec (length (orderedInsights entries)) 4) as [Hlt | Hge];
    [intros _ | discriminate].
  assert (exists k, k ∈ orderedIcons /\ insightsMap entries !! k = None)
    as (k & Hk & Hnone).
  { destruct (insightsMap entries !! "skills") as [e1 |] eqn:H1;
      [| exists "skills"; unfold orderedIcons; split; [set_solver | assumption]].
    destruct (insightsMap entries !! "leadership") as [e2 |] eqn:H2;
      [| exists "leadership"; unfold orderedIcons; split; [set_solver | assumption]].
    destruct (insightsMap entries !! "tenure") as [e3 |] eqn:H3;
      [| exists "tenure"; unfold orderedIcons; split; [set_solver | assumption]].
    destruct (insightsMap entries !! "expertise") as [e4 |] eqn:H4;
      [| exists "expertise"; unfold orderedIcons; split; [set_solver | assumption]].
    rewrite (orderedInsights_all entries e1 e2 e3 e4 H1 H2 H3 H4) in Hlt.
    cbn [length] in Hlt. lia. }
  apply (missing_category data k Hk). intros Hhas.
  apply (has_entry_lookup data entries k Hentries) in Hhas as [entry Hlook].
  congruence.
Qed.



(** ** The skill distribution of the result *)



(** The arithmetic is that of doubles: 23 / 40 * 100 is a little less
    than 57.5, and rounds to 57. *)
Example normalize_23_17 :
  normalizeSkillDistribution (distribution 23 17) = distribution 57 43.
Proof. vm_compute. reflexivity. Qed.


Lemma percentages_elem (t : Z) : (0 <= t <= 100)%Z -> In t percentages.
Proof.
  intros Ht. unfold percentages. apply in_map_iff. exists (Z.to_nat t).
  split; [lia |]. apply in_seq. lia.
Qed.

Lemma small_numbers_elem (t : Z) : (-50 <= t <= 50)%Z -> In t small_numbers.
Proof.
  intros Ht. unfold small_numbers. apply in_map_iff. exists (Z.to_nat (t + 50)).
  split; [lia |]. apply in_seq. lia.
Qed.

Lemma all_pairs_true (numbers : list Z) (test : Z -> Z -> bool) (t s : Z) :
  all_pairs numbers test = true -> In t numbers -> In s numbers -> test t s = true.
Proof.
  unfold all_pairs. rewrite forallb_forall. intros Hall Ht Hs.
  specialize (Hall t Ht). rewrite forallb_forall in Hall. exact (Hall s Hs).
Qed.

(** The code, run on each of the 101 * 101 distributions of whole
    percentages. *)
Lemma percentages_normalized : all_pairs percentages percentages_test = true.
Proof. vm_compute. reflexivity. Qed.

Lemma percentages_tested (t s : Z) :
  (0 <= t <= 100)%Z -> (0 <= s <= 100)%Z ->
  keeps_invariant (normalizeSkillDistribution (distribution t s)) = true /\
  Js.strict_eq (sum (normalizeSkillDistribution (distribution t s))) (Js.num 100) = true.
Proof.
  intros Ht Hs. apply andb_true_iff.
  exact (all_pairs_true _ _ t s percentages_normalized
           (percentages_elem t Ht) (percentages_elem s Hs)).
Qed.




(** Nor do values that are not negative suffice. The code tests the sum
    it computes, a double: 100 and a value too small to change that sum
    pass for a sum of 100 and are left as they are, though their exact
    sum is more than 100. *)
Example normalize_100_and_a_little :
  let little := Js.div (Js.num 1) (Js.num (10 ^ 20)) in
  let sd := {| technical := Js.num 100; soft := little |} in
  normalizeSkillDistribution sd = sd /\
  Js.gt little (Js.num 0) = true /\
  ~ distribution_invariant sd.
Proof.
  cbn zeta. split; [vm_compute; reflexivity |]. split; [vm_compute; reflexivity |].
  intros (t & s & Ht & Hs & _ & _ & Hsum).
  vm_compute in Ht, Hs. injection Ht as <-. injection Hs as <-.
  vm_compute in Hsum. discriminate Hsum.
Qed.

(** ** The HTTP client *)

Lemma detail_not_null (body detail : Js.Json) :
  Http.detail_of body = Some detail -> body <> Js.JNull.
Proof. intros Hdetail ->. discriminate Hdetail. Qed.

Lemma getJobInsights_message (engine : Js.Engine) (response : Http.Response)
    (body : Js.Json) :
  Http.ok response = false ->
  Http.json response = Ok body ->
  body <> Js.JNull ->
  Http.getJobInsights engine (Http.Fetched response) =
    Error (Js.ToString engine
             (Js.or_else (Http.detail_of body)
                (Js.JString ("API error: " +:+ Http.statusText response)))).
Proof.
  intros Hok Hbody Hnull. unfold Http.getJobInsights.
  rewrite Hok, Hbody. cbn [negb]. now destruct body.
Qed.

Lemma or_else_string (detail : string) (fallback : Js.Json) :
  detail <> "" -> Js.or_else (Some (Js.JString detail)) fallback = Js.JString detail.
Proof. intros Hne. unfold Js.or_else. cbn [Js.ToBoolean]. now destruct detail. Qed.

(** C7, as the code has it: for every non-2xx response whose JSON body
    has a detail that is a string and is not empty, the HTTP client fails
    with an error whose message is that detail; a body with the detail
    "rate limited" gives the message "rate limited". *)
Theorem C7_detail_is_the_message (engine : Js.Engine) (response : Http.Response)
    (body : Js.Json) (detail : string) :
  Http.ok response = false ->
  Http.json response = Ok body ->
  Http.detail_of body = Some (Js.JString detail) ->
  detail <> "" ->
  Http.getJobInsights engine (Http.Fetched response) = Error detail.
Proof.
  intros Hok Hbody Hdetail Hne.
  rewrite (getJobInsights_message engine response body Hok Hbody
             (detail_not_null body _ Hdetail)).
  now rewrite Hdetail, or_else_string.
Qed.

Lemma C7_detail_is_the_message_witness :
  Http.getJobInsights an_engine (Http.Fetched rate_limited) = Error "rate limited".
Proof.
  apply (C7_detail_is_the_message an_engine rate_limited
           (Js.JObject [("detail", Js.JString "rate limited")])).
  - reflexivity.
  - reflexivity.
  - reflexivity.
  - discriminate.
Defined.

(** C7, as the specification states it, fails on a body whose detail is
    the empty string: the message is the one built from the status text. *)
Lemma C7_counterexample :
  Http.ok empty_detail = false /\
  (forall engine,
     Http.getJobInsights engine (Http.Fetched empty_detail) =
       Error "API error: Too Many Requests") /\
  (forall engine, ~ fails_with_detail engine empty_detail).
Proof.
  split; [reflexivity |]. split; [reflexivity |].
  intros engine Hclaim. specialize (Hclaim _ "" eq_refl eq_refl). discriminate Hclaim.
Qed.

(** ** Strings *)

Lemma append_empty_l (s : string) : "" +:+ s = s.
Proof. reflexivity. Qed.

Lemma append_String (c : ascii) (a b : string) :
  String c a +:+ b = String c (a +:+ b).
Proof. reflexivity. Qed.

Lemma append_empty_r (s : string) : s +:+ "" = s.
Proof.
  induction s as [| c s IH]; [reflexivity | now rewrite append_String, IH].
Qed.

Lemma blank_empty : blank "".
Proof. intros c []. Qed.

Lemma blank_String (c : ascii) (s : string) :
  blank (String c s) <-> Js.is_whitespace c = true /\ blank s.
Proof.
  unfold blank. cbn [occurs]. split.
  - intros Hall. split; [apply Hall; now left |]. intros c' Hc'. apply Hall. now right.
  - intros [Hc Hs] c' [<- | Hc']; [assumption | now apply Hs].
Qed.

Lemma blank_append (a b : string) : blank a -> blank b -> blank (a +:+ b).
Proof.
  induction a as [| c a IH]; [intros _ Hb; exact Hb |].
  rewrite append_String, !blank_String.
  intros [Hc Ha] Hb. split; [assumption | now apply IH].
Qed.

Lemma not_starts_blank_empty : ~ starts_blank "".
Proof. intros (c & rest & Heq & _). discriminate Heq. Qed.

Lemma starts_blank_String (c : ascii) (s : string) :
  starts_blank (String c s) <-> Js.is_whitespace c = true.
Proof.
  split.
  - intros (c' & rest & [= <- <-] & Hc). exact Hc.
  - intros Hc. now exists c, s.
Qed.

Lemma not_ends_blank_empty : ~ ends_blank "".
Proof. intros ([| x front] & c & Heq & _); discriminate Heq. Qed.

Lemma ends_blank_String (c : ascii) (s : string) :
  ends_blank (String c s) <->
  (s = "" /\ Js.is_whitespace c = true) \/ ends_blank s.
Proof.
  split.
  - intros ([| x front] & c' & Heq & Hc').
    + left. rewrite append_empty_l in Heq. now injection Heq as -> <-.
    + right. rewrite append_String in Heq. injection Heq as -> ->.
      now exists front, c'.
  - intros [[-> Hc] | (front & c' & -> & Hc')].
    + now exists "", c.
    + now exists (String c front), c'.
Qed.

(** *** [trim] *)

Lemma trimStart_spec (s : string) :
  exists leading,
    s = leading +:+ Js.trimStart s /\ blank leading /\ ~ starts_blank (Js.trimStart s).
Proof.
  induction s as [| c s (leading & Heq & Hblank & Hstart)]; cbn [Js.trimStart].
  - exists "". split; [reflexivity |]. split; [apply blank_empty | apply not_starts_blank_empty].
  - destruct (Js.is_whitespace c) eqn:Hc.
    + exists (String c leading). rewrite append_String, <- Heq.
      split; [reflexivity |]. split; [now apply blank_String | assumption].
    + exists "". split; [reflexivity |]. split; [apply blank_empty |].
      rewrite starts_blank_String. congruence.
Qed.

Lemma trimEnd_spec (s : string) :
  exists trailing,
    s = Js.trimEnd s +:+ trailing /\ blank trailing /\ ~ ends_blank (Js.trimEnd s).
Proof.
  induction s as [| c s (trailing & Heq & Hblank & Hend)]; cbn [Js.trimEnd].
  - exists "". split; [reflexivity |]. split; [apply blank_empty | apply not_ends_blank_empty].
  - destruct (Js.trimEnd s) as [| k kept] eqn:Hkept.
    + rewrite append_empty_l in Heq. subst trailing.
      destruct (Js.is_whitespace c) eqn:Hc.
      * exists (String c s). split; [reflexivity |].
        split; [now apply blank_String | apply not_ends_blank_empty].
      * exists s. split; [reflexivity |]. split; [assumption |].
        rewrite ends_blank_String. intros [[_ Hc'] | Hempty]; [congruence |].
        now apply not_ends_blank_empty.
    + exists trailing. rewrite append_String, <- Heq. split; [reflexivity |].
      split; [assumption |]. rewrite ends_blank_String.
      intros [[Hnil _] | Hk]; [discriminate Hnil | contradiction].
Qed.

Lemma trimEnd_starts_blank (s : string) :
  starts_blank (Js.trimEnd s) -> starts_blank s.
Proof.
  destruct s as [| c s]; cbn [Js.trimEnd]; [trivial |].
  rewrite starts_blank_String.
  destruct (Js.trimEnd s); [destruct (Js.is_whitespace c) eqn:Hc |];
    rewrite ?starts_blank_String; congruence.
Qed.

Lemma trim_is_trim_of (s : string) : is_trim_of s (Js.trim s).
Proof.
  unfold Js.trim.
  destruct (trimStart_spec s) as (leading & Hs & Hleading & Hstart).
  destruct (trimEnd_spec (Js.trimStart s)) as (trailing & Ht & Htrailing & Hend).
  exists leading, trailing. rewrite <- Ht.
  repeat split; try assumption.
  intros Hblank. now apply Hstart, trimEnd_starts_blank.
Qed.

Lemma trimStart_blank (leading s : string) :
  blank leading -> Js.trimStart (leading +:+ s) = Js.trimStart s.
Proof.
  induction leading as [| c leading IH]; [reflexivity |].
  rewrite append_String, blank_String. cbn [Js.trimStart].
  intros [-> Hleading]. now apply IH.
Qed.

Lemma trimEnd_blank (trailing : string) : blank trailing -> Js.trimEnd trailing = "".
Proof.
  induction trailing as [| c trailing IH]; cbn; [trivial |].
  rewrite blank_String. intros [-> Htrailing]. now rewrite IH.
Qed.

Lemma trimEnd_append_blank (bullet trailing : string) :
  blank trailing -> ~ ends_blank bullet ->
  Js.trimEnd (bullet +:+ trailing) = bullet.
Proof.
  intros Htrailing. induction bullet as [| c bullet IH].
  - intros _. rewrite append_empty_l. now apply trimEnd_blank.
  - rewrite append_String, ends_blank_String. cbn [Js.trimEnd].
    intros Hend. rewrite IH by tauto.
    destruct bullet as [| k kept]; [| reflexivity].
    destruct (Js.is_whitespace c); [| reflexivity]. destruct Hend. now left.
Qed.

Lemma is_trim_of_trim (segment bullet : string) :
  is_trim_of segment bullet -> bullet = Js.trim segment.
Proof.
  intros (leading & trailing & -> & Hleading & Htrailing & Hstart & Hend).
  unfold Js.trim. rewrite trimStart_blank by assumption.
  destruct bullet as [| c bullet].
  - rewrite append_empty_l, <- (append_empty_r trailing).
    now rewrite trimStart_blank.
  - rewrite starts_blank_String in Hstart. rewrite append_String.
    cbn [Js.trimStart]. rewrite <- append_String.
    destruct (Js.is_whitespace c); [congruence |].
    symmetry. now apply (trimEnd_append_blank (String c bullet)).
Qed.

Lemma trim_empty (s : string) : Js.trim s = "" <-> blank s.
Proof.
  split.
  - intros Hempty. destruct (trim_is_trim_of s) as (leading & trailing & Hs & Hl & Ht & _).
    rewrite Hempty, append_empty_l in Hs. rewrite Hs. now apply blank_append.
  - intros Hblank. unfold Js.trim. rewrite <- (append_empty_r s).
    now rewrite trimStart_blank.
Qed.

(** *** [split] *)

Lemma split_nonempty (separator : ascii) (s : string) : Js.split separator s <> [].
Proof.
  destruct s as [| c s]; cbn [Js.split]; [discriminate |].
  destruct (Ascii.eqb c separator); [discriminate |].
  destruct (Js.split separator s); discriminate.
Qed.

Lemma concat_String (separator : string) (c : ascii) (segment : string)
    (segments : list string) :
  String.concat separator (String c segment :: segments) =
    String c (String.concat separator (segment :: segments)).
Proof. destruct segments; reflexivity. Qed.

Lemma concat_cons (separator segment next : string) (segments : list string) :
  String.concat separator (segment :: next :: segments) =
    segment +:+ separator +:+ String.concat separator (next :: segments).
Proof. reflexivity. Qed.

Lemma concat_split (separator : ascii) (s : string) :
  String.concat (String separator "") (Js.split separator s) = s.
Proof.
  induction s as [| c s IH]; cbn [Js.split]; [reflexivity |].
  pose proof (split_nonempty separator s) as Hne.
  destruct (Ascii.eqb_spec c separator) as [-> | Hc].
  - destruct (Js.split separator s) as [| segment segments]; [contradiction |].
    now rewrite concat_cons, IH.
  - destruct (Js.split separator s) as [| segment segments]; [contradiction |].
    now rewrite concat_String, IH.
Qed.

Lemma split_segments (separator : ascii) (s : string) :
  Forall (fun segment => ~ occurs separator segment) (Js.split separator s).
Proof.
  induction s as [| c s IH]; cbn [Js.split].
  - constructor; [intros [] | constructor].
  - destruct (Ascii.eqb_spec c separator) as [-> | Hc].
    + constructor; [intros [] | assumption].
    + destruct (Js.split separator s) as [| segment segments].
      * constructor; [| constructor]. cbn [occurs]. tauto.
      * inversion IH as [| ? ? Hsegment Hsegments]; subst.
        constructor; [| assumption]. cbn [occurs]. tauto.
Qed.

Lemma split_concat (separator : ascii) (segments : list string) :
  segments <> [] ->
  Forall (fun segment => ~ occurs separator segment) segments ->
  Js.split separator (String.concat (String separator "") segments) = segments.
Proof.
  induction segments as [| segment segments IH]; [contradiction |].
  intros _ Hall. inversion Hall as [| ? ? Hsegment Hsegments]; subst.
  clear Hall. induction segment as [| c segment IHsegment].
  - destruct segments as [| next segments]; [reflexivity |].
    rewrite concat_cons, append_empty_l, append_String, append_empty_l.
    cbn [Js.split]. rewrite Ascii.eqb_refl. f_equal. now apply IH.
  - cbn [occurs] in Hsegment. rewrite concat_String. cbn [Js.split].
    destruct (Ascii.eqb_spec c separator) as [-> | Hc]; [tauto |].
    rewrite IHsegment by tauto. reflexivity.
Qed.

Lemma split_no_separator (separator : ascii) (s : string) :
  ~ occurs separator s -> Js.split separator s = [s].
Proof.
  intros Hs. apply (split_concat separator [s]); [discriminate |].
  now constructor.
Qed.

(** ** The bullets *)

Lemma filter_Boolean (l : list string) :
  List.filter Js.Boolean l = filter (fun bullet => bullet <> "") l.
Proof.
  induction l as [| s l IH]; [reflexivity |].
  cbn [List.filter]. rewrite filter_cons, IH.
  destruct s; cbn [Js.Boolean]; destruct (decide _) as [Hne | Hne];
    try reflexivity; destruct Hne; [reflexivity | discriminate].
Qed.

Lemma trimmed_segments (segments : list string) :
  Forall2 is_trim_of segments (map Js.trim segments).
Proof.
  induction segments as [| segment segments IH]; constructor;
    [apply trim_is_trim_of | assumption].
Qed.

Lemma trimmed_unique (segments trimmed : list string) :
  Forall2 is_trim_of segments trimmed -> trimmed = map Js.trim segments.
Proof.
  induction 1 as [| segment bullet segments trimmed Hbullet _ IH]; [reflexivity |].
  cbn [map]. now rewrite <- (is_trim_of_trim segment bullet Hbullet), IH.
Qed.

Lemma points_is_bullet_split (text : string) : is_bullet_split text (App.points text).
Proof.
  exists (Js.split "*" text), (map Js.trim (Js.split "*" text)).
  split; [apply split_nonempty |].
  split; [symmetry; apply concat_split |].
  split; [apply split_segments |].
  split; [apply trimmed_segments |].
  apply filter_Boolean.
Qed.

(** The words of the specification determine the bullets. *)
Lemma is_bullet_split_points (text : string) (bullets : list string) :
  is_bullet_split text bullets -> bullets = App.points text.
Proof.
  intros (segments & trimmed & Hne & -> & Hstars & Htrimmed & ->).
  unfold App.points. rewrite (split_concat "*" segments Hne Hstars).
  rewrite (trimmed_unique segments trimmed Htrimmed). symmetry. apply filter_Boolean.
Qed.

(** C4: the bullet split cuts the string at each '*', trims the white
    space of each segment and leaves the empty segments out, keeping the
    order; "* Python\n* SQL * Excel" gives ["Python", "SQL", "Excel"]. *)
Theorem C4_bullet_split (text : string) :
  is_bullet_split text (App.points text) /\
  App.points ("* Python" +:+ LF +:+ "* SQL * Excel") = ["Python"; "SQL"; "Excel"].
Proof.
  split; [apply points_is_bullet_split |]. vm_compute. reflexivity.
Qed.

(** C5, as the code has it: for every free-text string without a '*'
    that has a character other than white space, the bullet split gives
    one bullet, the whole string trimmed, and never an empty list. *)
Theorem C5_single_bullet (text : string) :
  ~ occurs "*" text -> ~ blank text ->
  App.points text = [Js.trim text] /\
  is_trim_of text (Js.trim text) /\
  App.points text <> [].
Proof.
  intros Hstar Hblank. unfold App.points.
  rewrite (split_no_separator "*" text Hstar). cbn [map List.filter].
  destruct (Js.trim text) as [| c bullet] eqn:Htrim.
  - now apply trim_empty in Htrim.
  - cbn [Js.Boolean]. rewrite <- Htrim.
    split; [reflexivity |]. split; [apply trim_is_trim_of | discriminate].
Qed.

Lemma C5_single_bullet_witness :
  App.points "  Strong communication skills " = [Js.trim "  Strong communication skills "] /\
  is_trim_of "  Strong communication skills " (Js.trim "  Strong communication skills ") /\
  App.points "  Strong communication skills " <> [].
Proof.
  apply (C5_single_bullet "  Strong communication skills ").
  - no_occurrence.
  - intros Hblank. specialize (Hblank "S"%char). cbn [occurs] in Hblank.
    assert (Js.is_whitespace "S" = true) as Hfalse by (apply Hblank; tauto).
    discriminate Hfalse.
Defined.

(** C5, as the specification states it, fails on a string of white space
    only: it has no '*', and its bullet split is the empty list. *)
Lemma C5_counterexample :
  ~ occurs "*" "   " /\
  App.points "   " = [] /\
  App.points "   " <> [Js.trim "   "].
Proof.
  split; [no_occurrence |]. split; [reflexivity | discriminate].
Qed.

Lemma blank_points (text : string) : blank text -> App.points text = [].
Proof.
  intros Hblank. unfold App.points.
  assert (~ occurs "*" text) as Hstar.
  { intros Hstar. apply Hblank in Hstar. discriminate Hstar. }
  rewrite (split_no_separator "*" text Hstar). cbn [map List.filter].
  apply trim_empty in Hblank. now rewrite Hblank.
Qed.

(** * More on the code *)

(** ** [generateInsights]: when it succeeds, and with what *)

Lemma normalize_Ok_categories (data normalized : InsightData) :
  normalize data = Ok normalized ->
  exists sd entries e1 e2 e3 e4,
    skillDistribution data = Some sd /\
    keyInsights data = Some entries /\
    insightsMap entries !! "skills" = Some e1 /\
    insightsMap entries !! "leadership" = Some e2 /\
    insightsMap entries !! "tenure" = Some e3 /\
    insightsMap entries !! "expertise" = Some e4 /\
    normalized =
      {| skillDistribution := Some (normalizeSkillDistribution sd);
         keyInsights := Some [entitled "skills" e1; entitled "leadership" e2;
                              entitled "tenure" e3; entitled "expertise" e4] |}.
Proof.
  intros Hn. apply normalize_Ok in Hn as (sd & entries & Hsd & Hentries & _ & Hfour & ->).
  destruct (orderedInsights_four entries Hfour) as (e1 & e2 & e3 & e4 & H1 & H2 & H3 & H4).
  exists sd, entries, e1, e2, e3, e4.
  now rewrite (orderedInsights_all entries e1 e2 e3 e4 H1 H2 H3 H4).
Qed.

Lemma orderedIcons_elem (k : string) :
  k ∈ orderedIcons <->
  k = "skills" \/ k = "leadership" \/ k = "tenure" \/ k = "expertise".
Proof. unfold orderedIcons. rewrite !elem_of_cons, elem_of_nil. tauto. Qed.

(** The client succeeds on a parsed response exactly when the response
    has a skill distribution and an entry for each of the four keys: the
    test on the number of entries adds nothing to that. *)
Theorem generateInsights_succeeds_iff (data : InsightData) :
  (exists normalized, generateInsights (Parsed data) = Ok normalized) <->
  is_Some (skillDistribution data) /\
  (forall k, k ∈ orderedIcons -> has_entry_for k data).
Proof.
  split.
  - intros (normalized & Hok).
    apply generateInsights_Ok in Hok as (data' & [= <-] & Hn).
    apply normalize_Ok_categories in Hn
      as (sd & entries & e1 & e2 & e3 & e4 & Hsd & Hentries & H1 & H2 & H3 & H4 & _).
    split; [eauto |]. intros k Hk.
    apply (has_entry_lookup data entries k Hentries).
    apply orderedIcons_elem in Hk as [-> | [-> | [-> | ->]]]; eauto.
  - intros [[sd Hsd] Hcover].
    destruct (Hcover "skills") as (entries & _ & Hentries & _);
      [apply orderedIcons_elem; tauto |].
    assert (forall k, k ∈ orderedIcons -> is_Some (insightsMap entries !! k)) as Hall.
    { intros k Hk. now apply (has_entry_lookup data entries k Hentries), Hcover. }
    destruct (Hall "skills") as [e1 H1]; [apply orderedIcons_elem; tauto |].
    destruct (Hall "leadership") as [e2 H2]; [apply orderedIcons_elem; tauto |].
    destruct (Hall "tenure") as [e3 H3]; [apply orderedIcons_elem; tauto |].
    destruct (Hall "expertise") as [e4 H4]; [apply orderedIcons_elem; tauto |].
    eexists. apply generateInsights_Ok. eexists. split; [reflexivity |].
    exact (normalize_complete data sd entries e1 e2 e3 e4 Hsd Hentries H1 H2 H3 H4).
Qed.

(** Whatever the request settles to, a result of the client has a skill
    distribution and exactly the four categories, in the fixed order and
    under the fixed titles. *)
Theorem generateInsights_result_shape (outcome : ApiOutcome) (normalized : InsightData) :
  generateInsights outcome = Ok normalized ->
  exists sd categories,
    skillDistribution normalized = Some sd /\
    keyInsights normalized = Some categories /\
    map icon categories = orderedIcons /\
    map title categories = fixed_titles.
Proof.
  intros Hok. apply generateInsights_Ok in Hok as (data & -> & Hn).
  apply normalize_Ok_categories in Hn
    as (sd & entries & e1 & e2 & e3 & e4 & _ & _ & H1 & H2 & H3 & H4 & ->).
  eexists _, _. split; [reflexivity |]. split; [reflexivity |].
  split; [| reflexivity].
  apply insightsMap_Some in H1 as [_ H1], H2 as [_ H2], H3 as [_ H3], H4 as [_ H4].
  cbn [map entitled icon]. now rewrite H1, H2, H3, H4.
Qed.

Lemma generateInsights_result_shape_witness :
  exists sd categories,
    skillDistribution normalized_response = Some sd /\
    keyInsights normalized_response = Some categories /\
    map icon categories = orderedIcons /\
    map title categories = fixed_titles.
Proof.
  apply (generateInsights_result_shape (Parsed shuffled_response) normalized_response).
  vm_compute. reflexivity.
Defined.

(** The text of each category of a result is the text of an entry of the
    raw response that has the category's icon: the client writes no text
    of its own. *)
Theorem generateInsights_texts_from_entries (data normalized : InsightData)
    (entries categories : list KeyInsight) (category : KeyInsight) :
  generateInsights (Parsed data) = Ok normalized ->
  keyInsights data = Some entries ->
  keyInsights normalized = Some categories ->
  category ∈ categories ->
  exists entry,
    entry ∈ entries /\ icon entry = icon category /\ text entry = text category.
Proof.
  intros Hok Hentries Hcategories Hin.
  apply generateInsights_Ok in Hok as (data' & [= <-] & Hn).
  apply normalize_Ok_categories in Hn
    as (sd & entries' & e1 & e2 & e3 & e4 & _ & Hentries' & H1 & H2 & H3 & H4 & ->).
  rewrite Hentries in Hentries'. injection Hentries' as <-.
  cbn [keyInsights] in Hcategories. injection Hcategories as <-.
  apply insightsMap_Some in H1 as [I1 _], H2 as [I2 _], H3 as [I3 _], H4 as [I4 _].
  rewrite !elem_of_cons, elem_of_nil in Hin.
  destruct Hin as [-> | [-> | [-> | [-> | []]]]]; eauto.
Qed.

Lemma generateInsights_texts_from_entries_witness :
  exists entry,
    entry ∈ shuffled_entries /\
    icon entry = "tenure" /\ text entry = "* Two years".
Proof.
  apply (generateInsights_texts_from_entries shuffled_response normalized_response
           shuffled_entries
           (default [] (keyInsights normalized_response))
           (entitled "tenure" (insight "tenure" "* Two years"))).
  - vm_compute. reflexivity.
  - reflexivity.
  - reflexivity.
  - cbn. rewrite !elem_of_cons. tauto.
Defined.

(** ** [generateInsights]: what does not matter in the raw response *)

Lemma orderedInsights_ext (entries entries' : list KeyInsight) :
  (forall k, k ∈ orderedIcons -> insightsMap entries !! k = insightsMap entries' !! k) ->
  orderedInsights entries = orderedInsights entries'.
Proof.
  intros Hsame. unfold orderedInsights, orderedIcons. cbn [omap list_omap].
  now rewrite !Hsame by (apply orderedIcons_elem; tauto).
Qed.

Lemma orderedInsights_four_entries (entries : list KeyInsight) :
  length (orderedInsights entries) = 4%nat -> (4 <= length entries)%nat.
Proof.
  intros Hfour. apply entries_cover_length. intros k Hk.
  destruct (orderedInsights_four entries Hfour) as (e1 & e2 & e3 & e4 & H1 & H2 & H3 & H4).
  apply orderedIcons_elem in Hk as [-> | [-> | [-> | ->]]];
    eexists; eapply insightsMap_Some; eassumption.
Qed.

(** The result of [normalize], but for the message of its error, is that
    of the lookup alone: the number of entries plays no part. *)
Lemma generateInsights_lookup (sd : option SkillDistribution)
    (entries entries' : list KeyInsight) :
  (forall k, k ∈ orderedIcons -> insightsMap entries !! k = insightsMap entries' !! k) ->
  generateInsights (Parsed {| skillDistribution := sd; keyInsights := Some entries |}) =
  generateInsights (Parsed {| skillDistribution := sd; keyInsights := Some entries' |}).
Proof.
  intros Hsame. apply orderedInsights_ext in Hsame.
  unfold generateInsights, try_block, normalize. cbn [skillDistribution keyInsights].
  destruct sd as [sd |]; [| reflexivity]. rewrite <- Hsame.
  pose proof (orderedInsights_length entries) as Hle.
  destruct (Nat.ltb_spec (length (orderedInsights entries)) 4) as [Hlt | Hge].
  - now destruct (length entries <? 4)%nat, (length entries' <? 4)%nat.
  - assert (length (orderedInsights entries) = 4%nat) as Hfour by lia.
    pose proof (orderedInsights_four_entries entries Hfour).
    rewrite Hsame in Hfour.
    pose proof (orderedInsights_four_entries entries' Hfour).
    destruct (Nat.ltb_spec (length entries) 4); [lia |].
    destruct (Nat.ltb_spec (length entries') 4); [lia | reflexivity].
Qed.

(** An entry of the raw response whose icon is none of the four keys is
    ignored: with it or without it, the client gives the same result or
    fails alike. *)
Theorem generateInsights_ignores_other_icons (sd : option SkillDistribution)
    (before after : list KeyInsight) (other : KeyInsight) :
  icon other ∉ orderedIcons ->
  generateInsights (Parsed {| skillDistribution := sd;
                              keyInsights := Some (before ++ other :: after) |}) =
  generateInsights (Parsed {| skillDistribution := sd;
                              keyInsights := Some (before ++ after) |}).
Proof.
  intros Hother. apply generateInsights_lookup. intros k Hk.
  rewrite !insightsMap_lookup, !filter_app, filter_cons_False; [reflexivity |].
  intros Heq. apply Hother. now rewrite Heq.
Qed.

Lemma generateInsights_ignores_other_icons_witness :
  generateInsights
    (Parsed {| skillDistribution := Some (distribution 70 20);
               keyInsights := Some ([] ++ insight "salary" "* High" :: shuffled_entries) |}) =
  generateInsights
    (Parsed {| skillDistribution := Some (distribution 70 20);
               keyInsights := Some ([] ++ shuffled_entries) |}).
Proof.
  apply (generateInsights_ignores_other_icons _ [] shuffled_entries (insight "salary" "* High")).
  rewrite orderedIcons_elem. cbn. intros [H | [H | [H | H]]]; discriminate H.
Defined.

Lemma filter_icon_NoDup (entries : list KeyInsight) (k : string) :
  NoDup (map icon entries) ->
  (length (filter (fun entry => icon entry = k) entries) <= 1)%nat.
Proof.
  induction entries as [| entry entries IH]; [cbn; lia |].
  cbn [map]. rewrite NoDup_cons. intros [Hfresh Hnodup].
  rewrite filter_cons. destruct (decide (icon entry = k)) as [<- | Hne]; [| now apply IH].
  assert (filter (fun later => icon later = icon entry) entries = []) as ->; [| cbn; lia].
  assert (Forall (fun later => icon later <> icon entry) entries) as Hnone.
  { apply Forall_forall. intros later Hin Heq.
    apply Hfresh. rewrite <- Heq. now apply (list_elem_of_fmap_2 icon). }
  apply insightsMap_None in Hnone.
  now rewrite insightsMap_lookup, last_None in Hnone.
Qed.

(** When no two entries of the raw response have the same icon, the
    order of the entries does not matter: a response with the same
    entries in another order gets the same result. *)
Theorem generateInsights_order_irrelevant (sd : option SkillDistribution)
    (entries entries' : list KeyInsight) :
  NoDup (map icon entries) ->
  entries ≡ₚ entries' ->
  generateInsights (Parsed {| skillDistribution := sd; keyInsights := Some entries |}) =
  generateInsights (Parsed {| skillDistribution := sd; keyInsights := Some entries' |}).
Proof.
  intros Hnodup Hperm. apply generateInsights_lookup. intros k _.
  rewrite !insightsMap_lookup.
  pose proof (filter_icon_NoDup entries k Hnodup) as Hone.
  assert (filter (fun entry => icon entry = k) entries
            ≡ₚ filter (fun entry => icon entry = k) entries') as Hfilter
    by now rewrite Hperm.
  destruct (filter (fun entry => icon entry = k) entries) as [| entry [| second rest]].
  - apply Permutation_nil_l in Hfilter. now rewrite Hfilter.
  - apply Permutation_singleton_l in Hfilter. now rewrite Hfilter.
  - cbn [length] in Hone. lia.
Qed.

Lemma generateInsights_order_irrelevant_witness :
  generateInsights (Parsed shuffled_response) =
  generateInsights
    (Parsed {| skillDistribution := Some (distribution 70 20);
               keyInsights := Some (reverse shuffled_entries) |}).
Proof.
  apply (generateInsights_order_irrelevant _ shuffled_entries (reverse shuffled_entries)).
  - apply (bool_decide_unpack _). vm_compute. exact I.
  - symmetry. apply reverse_Permutation.
Defined.

(** ** [generateInsights] on its own results *)

(** A result that [generateInsights] returns for a response whose
    distribution is made of two whole numbers from 0 to 100 is, given
    back to it as a parsed response, returned as it is. *)
Theorem generateInsights_fixed_point (data normalized : InsightData) (t s : Z) :
  skillDistribution data = Some (distribution t s) ->
  (0 <= t <= 100)%Z -> (0 <= s <= 100)%Z ->
  generateInsights (Parsed data) = Ok normalized ->
  generateInsights (Parsed normalized) = Ok normalized.
Proof.
  intros Hsd Ht Hs Hok.
  apply generateInsights_Ok in Hok as (data' & [= <-] & Hn).
  apply normalize_Ok_categories in Hn
    as (sd & entries & e1 & e2 & e3 & e4 & Hsd' & _ & H1 & H2 & H3 & H4 & ->).
  rewrite Hsd in Hsd'. injection Hsd' as <-.
  apply insightsMap_Some in H1 as [_ H1], H2 as [_ H2], H3 as [_ H3], H4 as [_ H4].
  apply generateInsights_Ok. eexists. split; [reflexivity |].
  apply normalize_fixed.
  - cbn [map entitled icon]. now rewrite H1, H2, H3, H4.
  - reflexivity.
  - apply normalize_unchanged. left. now apply percentages_tested.
Qed.

Lemma generateInsights_fixed_point_witness :
  generateInsights (Parsed normalized_response) = Ok normalized_response.
Proof.
  apply (generateInsights_fixed_point shuffled_response normalized_response 70 20).
  - reflexivity.
  - lia.
  - lia.
  - vm_compute. reflexivity.
Defined.

(** ** The skill distribution, whatever the signs *)

Lemma normalize_neither (sd : SkillDistribution) :
  Js.gt (sum sd) (Js.num 0) = false -> Js.strict_eq (sum sd) (Js.num 0) = false ->
  normalizeSkillDistribution sd = sd.
Proof.
  unfold sum, normalizeSkillDistribution. now intros -> ->.
Qed.

(** The code, run on each of the 101 * 101 distributions of whole
    numbers from -50 to 50. *)
Lemma small_numbers_normalized : all_pairs small_numbers small_numbers_test = true.
Proof. vm_compute. reflexivity. Qed.

(** For a distribution of two whole numbers from -50 to 50, of any
    signs: the sum of the normalised distribution, as the code takes it,
    is 100 exactly when the raw sum is not negative; and a distribution
    with a negative sum is left as it is. *)
Theorem normalized_sum (t s : Z) :
  (-50 <= t <= 50)%Z -> (-50 <= s <= 50)%Z ->
  let normalized := normalizeSkillDistribution (distribution t s) in
  (Js.strict_eq (sum normalized) (Js.num 100) = true <-> (0 <= t + s)%Z) /\
  ((t + s < 0)%Z -> normalized = distribution t s).
Proof.
  intros Ht Hs. cbn zeta.
  pose proof (all_pairs_true _ _ t s small_numbers_normalized
                (small_numbers_elem t Ht) (small_numbers_elem s Hs)) as Htest.
  unfold small_numbers_test in Htest. cbn zeta in Htest.
  destruct (Z.leb_spec 0 (t + s)) as [Hpos | Hneg].
  - split; [now split | lia].
  - apply andb_true_iff in Htest as [Htest Hsum].
    apply andb_true_iff in Htest as [Hgt Hzero].
    apply negb_true_iff in Hsum, Hgt, Hzero.
    split; [| intros _; now apply normalize_neither].
    split; [intros Hhundred; congruence | lia].
Qed.

Lemma normalized_sum_witness :
  normalizeSkillDistribution (distribution (-10) (-20)) = distribution (-10) (-20).
Proof.
  apply (proj2 (normalized_sum (-10) (-20) ltac:(lia) ltac:(lia))). lia.
Defined.

(** A distribution with a value that is not a number is left as it is
    too. *)
Example normalize_NaN :
  normalizeSkillDistribution {| technical := S754_nan; soft := Js.num 40 |} =
    {| technical := S754_nan; soft := Js.num 40 |}.
Proof. vm_compute. reflexivity. Qed.

(** The sum of the result is not always 100 when the raw sum is
    positive: with 2^60 + 1024 and -2^60 the rounded share is too large
    for 100 minus it to be exact. *)
Example normalize_large :
  let normalized :=
    normalizeSkillDistribution (distribution (2 ^ 60 + 1024) (- 2 ^ 60)) in
  Js.gt (sum (distribution (2 ^ 60 + 1024) (- 2 ^ 60))) (Js.num 0) = true /\
  Js.strict_eq (sum normalized) (Js.num 100) = false.
Proof. cbn zeta. split; vm_compute; reflexivity. Qed.

(** ** [getJobInsights]: a response that is not ok *)

Lemma or_else_fallback (detail : option Js.Json) (fallback : Js.Json) :
  detail = None \/ detail = Some (Js.JString "") -> Js.or_else detail fallback = fallback.
Proof. now intros [-> | ->]. Qed.

Lemma message_not_empty (engine : Js.Engine) (detail : option Js.Json) (statusText : string) :
  detail = None \/ (exists text, detail = Some (Js.JString text)) ->
  Js.ToString engine (Js.or_else detail (Js.JString ("API error: " +:+ statusText))) <> "".
Proof.
  intros [-> | [[| c text] ->]]; cbn [Js.or_else Js.ToBoolean Js.Boolean Js.ToString];
    discriminate.
Qed.

(** A response that is not ok never gives data, whatever its body, even
    a body with the insights; and when the body is JSON and not null,
    and its detail is missing or is a string, the message of the error
    is not empty. *)
Theorem getJobInsights_not_ok (engine : Js.Engine) (response : Http.Response) :
  Http.ok response = false ->
  exists message,
    Http.getJobInsights engine (Http.Fetched response) = Error message /\
    (forall body,
       Http.json response = Ok body -> body <> Js.JNull ->
       Http.detail_of body = None \/
       (exists detail, Http.detail_of body = Some (Js.JString detail)) ->
       message <> "").
Proof.
  intros Hok. destruct (Http.json response) as [body | reason] eqn:Hbody.
  - assert (body = Js.JNull \/ body <> Js.JNull) as [-> | Hnull]
      by (destruct body; [now left | right; discriminate ..]).
    + eexists. split; [unfold Http.getJobInsights; now rewrite Hok, Hbody |].
      intros body [= <-] Hnull. now destruct Hnull.
    + eexists. split; [exact (getJobInsights_message engine response body Hok Hbody Hnull) |].
      intros body' [= <-] _ Hdetail. now apply message_not_empty.
  - eexists. split; [unfold Http.getJobInsights; now rewrite Hok, Hbody |].
    intros body Hbody'. discriminate Hbody'.
Qed.

Lemma getJobInsights_not_ok_witness :
  exists message,
    Http.getJobInsights an_engine (Http.Fetched empty_detail) = Error message /\
    message <> "".
Proof.
  destruct (getJobInsights_not_ok an_engine empty_detail eq_refl) as (message & Hfails & Hmessage).
  exists message. split; [exact Hfails |].
  apply (Hmessage (Js.JObject [("detail", Js.JString "")])).
  - reflexivity.
  - discriminate.
  - right. now exists "".
Defined.

(** A detail that is a list gives the text of the list for a message:
    nothing for the empty list, and for a list of one object the text of
    an object. *)
Example getJobInsights_list_detail :
  (forall engine, Http.getJobInsights engine (Http.Fetched no_details) = Error "") /\
  (forall engine,
     Http.getJobInsights engine (Http.Fetched validation_errors) = Error "[object Object]").
Proof. split; reflexivity. Qed.

(** ** More on the bullets *)

Lemma occurs_append (c : ascii) (a b : string) :
  occurs c (a +:+ b) <-> occurs c a \/ occurs c b.
Proof.
  induction a as [| x a IH]; [rewrite append_empty_l; cbn; tauto |].
  rewrite append_String. cbn [occurs]. rewrite IH. tauto.
Qed.

Lemma trim_occurs (c : ascii) (s : string) : occurs c (Js.trim s) -> occurs c s.
Proof.
  destruct (trim_is_trim_of s) as (leading & trailing & Hs & _).
  intros Hc. rewrite Hs, !occurs_append. tauto.
Qed.

Lemma clean_trim (point : string) :
  ~ starts_blank point -> ~ ends_blank point -> Js.trim point = point.
Proof.
  intros Hstart Hend. symmetry. apply is_trim_of_trim. exists "", "".
  rewrite append_empty_l, append_empty_r.
  repeat split; try assumption; apply blank_empty.
Qed.

Lemma trim_clean (segment : string) :
  ~ occurs "*" segment -> Js.trim segment <> "" -> clean (Js.trim segment).
Proof.
  intros Hstars Hne.
  destruct (trim_is_trim_of segment) as (leading & trailing & _ & _ & _ & Hstart & Hend).
  repeat split; try assumption.
  intros Hstar. now apply Hstars, trim_occurs.
Qed.

Lemma points_Forall_clean (text : string) : Forall clean (App.points text).
Proof.
  unfold App.points. pose proof (split_segments "*" text) as Hstars.
  induction Hstars as [| segment segments Hsegment _ IH]; [constructor |].
  cbn [map List.filter].
  destruct (Js.Boolean (Js.trim segment)) eqn:Hkept; [| exact IH].
  constructor; [| exact IH]. apply trim_clean; [assumption |].
  intros Hempty. rewrite Hempty in Hkept. discriminate Hkept.
Qed.

(** Each bullet of the split is clean: it is not empty, has no '*', and
    neither starts nor ends with white space. *)
Theorem points_clean (text bullet : string) :
  bullet ∈ App.points text -> clean bullet.
Proof.
  unfold App.points. rewrite filter_Boolean, list_elem_of_filter, list_elem_of_fmap.
  intros [Hne (segment & -> & Hsegment)].
  pose proof (split_segments "*" text) as Hstars.
  rewrite Forall_forall in Hstars.
  exact (trim_clean segment (Hstars segment Hsegment) Hne).
Qed.

Lemma points_clean_witness : clean "Excel".
Proof.
  apply (points_clean ("* Python" +:+ LF +:+ "* SQL * Excel") "Excel").
  assert (App.points ("* Python" +:+ LF +:+ "* SQL * Excel") = ["Python"; "SQL"; "Excel"])
    as -> by (vm_compute; reflexivity).
  rewrite !elem_of_cons. tauto.
Defined.

Lemma filter_Boolean_clean (bullets : list string) :
  Forall clean bullets -> List.filter Js.Boolean (map Js.trim bullets) = bullets.
Proof.
  induction 1 as [| bullet bullets (Hne & _ & Hstart & Hend) _ IH]; [reflexivity |].
  cbn [map List.filter]. rewrite (clean_trim bullet Hstart Hend), IH.
  now destruct bullet.
Qed.

(** Clean bullets joined with '*' split into themselves again. *)
Theorem points_concat (bullets : list string) :
  Forall clean bullets -> App.points (String.concat "*" bullets) = bullets.
Proof.
  intros Hclean. unfold App.points.
  destruct bullets as [| bullet bullets]; [reflexivity |].
  rewrite (split_concat "*" (bullet :: bullets)); [| discriminate |].
  - now apply filter_Boolean_clean.
  - eapply Forall_impl; [exact Hclean |]. now intros point (_ & Hstar & _).
Qed.

Lemma clean_literal_SQL : clean "SQL".
Proof.
  repeat split; [discriminate | no_occurrence | |].
  - rewrite starts_blank_String. discriminate.
  - rewrite !ends_blank_String. intros [[H _] | [[H _] | [[_ H] | H]]];
      try discriminate H. now apply not_ends_blank_empty in H.
Qed.

Lemma points_concat_witness :
  App.points (String.concat "*" ["SQL"; "SQL"]) = ["SQL"; "SQL"].
Proof.
  apply (points_concat ["SQL"; "SQL"]).
  repeat constructor; apply clean_literal_SQL.
Defined.

Lemma split_append (separator : ascii) (a b : string) :
  Js.split separator (a +:+ String separator b) =
    Js.split separator a ++ Js.split separator b.
Proof.
  induction a as [| c a IH].
  - rewrite append_empty_l. cbn [Js.split]. now rewrite Ascii.eqb_refl.
  - rewrite append_String. cbn [Js.split]. rewrite IH.
    pose proof (split_nonempty separator a) as Hne.
    destruct (Ascii.eqb c separator); [reflexivity |].
    now destruct (Js.split separator a).
Qed.

Lemma points_append_star (a b : string) :
  App.points (a +:+ String "*" b) = App.points a ++ App.points b.
Proof.
  unfold App.points. now rewrite split_append, map_app, List.filter_app.
Qed.

(** The bullets of two texts with a '*' between them are the bullets of
    the first text, then those of the second. *)
Theorem points_append (a b : string) :
  App.points (a +:+ String "*" b) = App.points a ++ App.points b.
Proof.
  unfold App.points. rewrite split_append, map_app. apply List.filter_app.
Qed.

Lemma append_assoc (a b c : string) : (a +:+ b) +:+ c = a +:+ b +:+ c.
Proof.
  induction a as [| x a IH]; [reflexivity | now rewrite !append_String, IH].
Qed.

Lemma blank_no_star (s : string) : blank s -> ~ occurs "*" s.
Proof. intros Hblank Hstar. apply Hblank in Hstar. discriminate Hstar. Qed.

Lemma points_padded (leading point trailing : string) :
  clean point -> blank leading -> blank trailing ->
  App.points (leading +:+ point +:+ trailing) = [point].
Proof.
  intros (Hne & Hstar & Hstart & Hend) Hleading Htrailing. unfold App.points.
  rewrite split_no_separator.
  - cbn [map List.filter].
    rewrite <- (is_trim_of_trim (leading +:+ point +:+ trailing) point).
    + now destruct point.
    + now exists leading, trailing.
  - rewrite !occurs_append. intros [H | [H | H]]; [| contradiction |];
      now apply blank_no_star in H.
Qed.

Lemma points_star (text : string) : App.points (String "*" text) = App.points text.
Proof. exact (points_append_star "" text). Qed.

Lemma bulleted_one (point : string) :
  bulleted [point] = String "*" (" " +:+ point).
Proof. reflexivity. Qed.

Lemma bulleted_more (point next : string) (points : list string) :
  bulleted (point :: next :: points) =
    String "*" ((" " +:+ point +:+ LF) +:+ bulleted (next :: points)).
Proof.
  unfold bulleted. cbn [map]. rewrite concat_cons.
  change ("* " +:+ point) with (String "*" (" " +:+ point)).
  now rewrite append_String, !append_assoc.
Qed.

Lemma blank_space : blank " ".
Proof. apply blank_String. split; [reflexivity | apply blank_empty]. Qed.

Lemma blank_LF : blank LF.
Proof. apply blank_String. split; [reflexivity | apply blank_empty]. Qed.

(** A text in the format the prompt asks for splits into its points,
    when the points are clean. *)
Theorem points_bulleted (points : list string) :
  Forall clean points -> App.points (bulleted points) = points.
Proof.
  induction 1 as [| point points Hpoint Hpoints IH]; [reflexivity |].
  destruct points as [| next points].
  - rewrite bulleted_one, points_star.
    replace (" " +:+ point) with (" " +:+ point +:+ "") by now rewrite append_empty_r.
    apply points_padded; [assumption | apply blank_space | apply blank_empty].
  - rewrite bulleted_more, points_star.
    destruct (bulleted (next :: points)) as [| star following] eqn:Hfollowing;
      [discriminate IH |].
    assert (star = "*"%char) as ->.
    { destruct points; [rewrite bulleted_one in Hfollowing
                       | rewrite bulleted_more in Hfollowing];
        now injection Hfollowing as <- _. }
    rewrite points_star in IH. rewrite points_append_star, IH.
    rewrite points_padded; [reflexivity | assumption | apply blank_space | apply blank_LF].
Qed.

Lemma points_bulleted_witness :
  App.points (bulleted ["SQL"; "SQL"]) = ["SQL"; "SQL"].
Proof.
  apply (points_bulleted ["SQL"; "SQL"]).
  repeat constructor; apply clean_literal_SQL.
Defined.

Lemma filter_Boolean_nil (segments : list string) :
  List.filter Js.Boolean (map Js.trim segments) = [] <-> Forall blank segments.
Proof.
  induction segments as [| segment segments IH]; [split; [constructor | reflexivity] |].
  cbn [map List.filter]. rewrite Forall_cons, <- IH, <- trim_empty.
  destruct (Js.trim segment); cbn [Js.Boolean]; split;
    try discriminate; try tauto.
  intros [Hempty _]. discriminate Hempty.
Qed.

Lemma split_blank (separator : ascii) (s : string) :
  Forall blank (Js.split separator s) <->
  (forall c, occurs c s -> c = separator \/ Js.is_whitespace c = true).
Proof.
  induction s as [| x s IH]; cbn [Js.split occurs].
  - split; [intros _ c [] | intros _]. constructor; [apply blank_empty | constructor].
  - pose proof (split_nonempty separator s) as Hne.
    destruct (Ascii.eqb_spec x separator) as [-> | Hx].
    + rewrite Forall_cons, IH. split.
      * intros [_ Hrest] c [<- | Hc]; [now left | now apply Hrest].
      * intros Hall. split; [apply blank_empty |]. intros c Hc. apply Hall. now right.
    + destruct (Js.split separator s) as [| segment segments]; [contradiction |].
      rewrite Forall_cons, blank_String. rewrite Forall_cons in IH. split.
      * intros [[Hx' Hsegment] Hsegments] c [<- | Hc]; [now right |].
        now apply (proj1 IH).
      * intros Hall.
        assert (Js.is_whitespace x = true) as Hx'
          by (destruct (Hall x) as [? | ?]; [now left | contradiction | assumption]).
        destruct (proj2 IH) as [Hsegment Hsegments]; [| tauto].
        intros c Hc. apply Hall. now right.
Qed.

(** The split gives no bullet at all exactly when the text has nothing
    but asterisks and white space. *)
Theorem points_nil (text : string) :
  App.points text = [] <->
  (forall c, occurs c text -> c = "*"%char \/ Js.is_whitespace c = true).
Proof. unfold App.points. now rewrite filter_Boolean_nil, split_blank. Qed.

(** ** The component: what is on display *)

Lemma or_Boolean (fallback message : string) :
  fallback <> "" -> Js.Boolean (Js.or (Some message) fallback) = true.
Proof.
  intros Hfallback. unfold Js.or. destruct message as [| c message]; [| reflexivity].
  cbn [Js.Boolean]. now destruct fallback.
Qed.

Section Component.

Variable D : Type.
Variable Outcome : Type.
Variable service : Outcome -> result D.
Variable fallback : string.
Hypothesis fallback_truthy : fallback <> "".

Let State : Type := Ui.State D.
Let displays := Ui.displays D Outcome service fallback.

Lemma displays_render (s : State) (panel : Ui.Panel D) :
  displays s panel -> Ui.render s = [panel].
Proof.
  intros Hs. destruct Hs as [title level | title level
                           | title level outcome data Hok
                           | title level outcome message Herror];
    unfold Ui.render; cbn [Ui.isLoading Ui.error Ui.insights]; try reflexivity.
  cbn [Ui.no_error]. now rewrite (or_Boolean fallback message fallback_truthy).
Qed.

Lemma step_displays (s s' : State) (panel : Ui.Panel D) :
  displays s panel -> Ui.step D Outcome service fallback s s' ->
  exists panel', displays s' panel'.
Proof.
  intros Hs Hstep.
  destruct Hstep as [s value Hidle | s value Hidle | s Hidle | s outcome Hloading].
  - destruct Hs; try discriminate Hidle; eexists;
      [apply Ui.displays_nothing
      | eapply Ui.displays_data; eassumption
      | eapply Ui.displays_failure; eassumption].
  - destruct Hs; try discriminate Hidle; eexists;
      [apply Ui.displays_nothing
      | eapply Ui.displays_data; eassumption
      | eapply Ui.displays_failure; eassumption].
  - eexists. apply Ui.displays_loading.
  - destruct Hs; try discriminate Hloading.
    unfold Ui.settle. destruct (service outcome) as [data | message] eqn:Hsettled;
      eexists; [eapply Ui.displays_data | eapply Ui.displays_failure]; eassumption.
Qed.

Lemma reachable_displays (s : State) :
  Ui.reachable D Outcome service fallback s -> exists panel, displays s panel.
Proof.
  unfold Ui.reachable. revert s. apply rtc_ind_r.
  - eexists. apply Ui.displays_nothing.
  - intros s s' _ Hstep [panel Hs]. now apply (step_displays s s' panel).
Qed.

Lemma reachable_state (s : State) :
  Ui.reachable D Outcome service fallback s ->
  Ui.isLoading s = true /\ Ui.error s = None /\ Ui.insights s = None \/
  Ui.isLoading s = false /\ Ui.error s = None /\ Ui.insights s = None \/
  (Ui.isLoading s = false /\ Ui.insights s = None /\
   exists outcome message,
     service outcome = Error message /\
     Ui.error s = Some (Js.or (Some message) fallback)) \/
  (Ui.isLoading s = false /\ Ui.error s = None /\
   exists outcome data, service outcome = Ok data /\ Ui.insights s = Some data).
Proof.
  intros Hreach. destruct (reachable_displays s Hreach) as [panel Hs].
  destruct Hs as [title level | title level
                 | title level outcome data Hok
                 | title level outcome message Herror];
    cbn [Ui.isLoading Ui.error Ui.insights].
  - right. now left.
  - now left.
  - right. right. right. repeat split. now exists outcome, data.
  - right. right. left. repeat split. now exists outcome, message.
Qed.

End Component.

(** ** src/App.tsx: a submission, and what the component shows *)

Lemma generateInsights_or (outcome : ApiOutcome) (message : string) :
  generateInsights outcome = Error message ->
  Js.or (Some message) GeminiApp.fallback = failure_message.
Proof. intros Herror. now rewrite (generateInsights_Error outcome message Herror). Qed.

(** A submission leaves the selection as it was and replaces the rest of
    the state, whatever it was: with the result and no error when the
    client succeeds, and else with no result and the message of the
    client, so that the fallback message of the [catch] is never shown. *)
Theorem GeminiApp_handleSubmit (outcome : ApiOutcome) (s : Ui.State InsightData) :
  GeminiApp.handleSubmit outcome s =
    match generateInsights outcome with
    | Ok data =>
        {| Ui.jobTitle := Ui.jobTitle s; Ui.jobLevel := Ui.jobLevel s;
           Ui.isLoading := false; Ui.error := None; Ui.insights := Some data |}
    | Error _ =>
        {| Ui.jobTitle := Ui.jobTitle s; Ui.jobLevel := Ui.jobLevel s;
           Ui.isLoading := false; Ui.error := Some failure_message;
           Ui.insights := None |}
    end /\
  Ui.render (GeminiApp.handleSubmit outcome s) =
    match generateInsights outcome with
    | Ok data => [Ui.Results data]
    | Error _ => [Ui.ErrorBox failure_message]
    end.
Proof.
  unfold GeminiApp.handleSubmit, Ui.handleSubmit, Ui.settle.
  destruct (generateInsights outcome) as [data | message] eqn:Hsettled.
  - split; reflexivity.
  - rewrite (generateInsights_or outcome message Hsettled). split; reflexivity.
Qed.

(** In every state the component gets to, one panel is on display: the
    spinner, the placeholder, the results of a request the client
    answered, or the error box with the one message of the client. *)
Theorem GeminiApp_display (s : Ui.State InsightData) :
  GeminiApp.reachable s ->
  Ui.render s = [Ui.Spinner] \/
  Ui.render s = [Ui.Placeholder] \/
  Ui.render s = [Ui.ErrorBox failure_message] \/
  exists outcome data,
    generateInsights outcome = Ok data /\ Ui.render s = [Ui.Results data].
Proof.
  intros Hreach.
  assert (GeminiApp.fallback <> "") as Hfallback by discriminate.
  destruct (reachable_displays _ _ _ _ s Hreach) as [panel Hs].
  pose proof (displays_render _ _ _ _ Hfallback s panel Hs) as Hrender.
  destruct Hs as [title level | title level
                 | title level outcome data Hok
                 | title level outcome message Herror].
  - right. now left.
  - now left.
  - right. right. right. now exists outcome, data.
  - right. right. left.
    now rewrite (generateInsights_or outcome message Herror) in Hrender |- *.
Qed.

Lemma GeminiApp_display_witness :
  let s := GeminiApp.handleSubmit (Parsed response_without_tenure)
             (Ui.initial InsightData) in
  Ui.render s = [Ui.Spinner] \/
  Ui.render s = [Ui.Placeholder] \/
  Ui.render s = [Ui.ErrorBox failure_message] \/
  exists outcome data,
    generateInsights outcome = Ok data /\ Ui.render s = [Ui.Results data].
Proof.
  apply (GeminiApp_display
           (GeminiApp.handleSubmit (Parsed response_without_tenure) (Ui.initial InsightData))).
  eapply rtc_l; [apply Ui.submit; reflexivity |].
  eapply rtc_l; [apply (Ui.settles _ _ _ _ _ (Parsed response_without_tenure)); reflexivity |].
  apply rtc_refl.
Defined.

(** The cards of a result of the client: each of the four has its icon
    component, the keys of the cards are the four fixed titles, no two
    alike, and every item of a card is a clean bullet. *)
Theorem GeminiApp_cards (outcome : ApiOutcome) (data : InsightData) :
  generateInsights outcome = Ok data ->
  exists cards,
    GeminiApp.cards data = Some cards /\
    map GeminiApp.IconComponent cards =
      [Some "SkillsIcon"; Some "LeadershipIcon"; Some "TenureIcon"; Some "ExpertiseIcon"] /\
    map GeminiApp.key cards = fixed_titles /\
    NoDup (map GeminiApp.key cards) /\
    Forall (fun card => Forall clean (GeminiApp.items card)) cards.
Proof.
  intros Hok. apply generateInsights_Ok in Hok as (raw & -> & Hn).
  apply normalize_Ok_categories in Hn
    as (sd & entries & e1 & e2 & e3 & e4 & _ & _ & H1 & H2 & H3 & H4 & ->).
  apply insightsMap_Some in H1 as [_ H1], H2 as [_ H2], H3 as [_ H3], H4 as [_ H4].
  eexists. split; [reflexivity |]. cbn [map GeminiApp.card GeminiApp.key
    GeminiApp.IconComponent GeminiApp.items entitled icon title text].
  split; [now rewrite H1, H2, H3, H4 |]. split; [reflexivity |].
  split; [apply (bool_decide_unpack _); vm_compute; exact I |].
  repeat constructor; apply points_Forall_clean.
Qed.

Lemma GeminiApp_cards_witness :
  exists cards,
    GeminiApp.cards normalized_response = Some cards /\
    map GeminiApp.IconComponent cards =
      [Some "SkillsIcon"; Some "LeadershipIcon"; Some "TenureIcon"; Some "ExpertiseIcon"] /\
    map GeminiApp.key cards = fixed_titles /\
    NoDup (map GeminiApp.key cards) /\
    Forall (fun card => Forall clean (GeminiApp.items card)) cards.
Proof.
  apply (GeminiApp_cards (Parsed shuffled_response) normalized_response).
  vm_compute. reflexivity.
Defined.

(** ** The HTTP variant: what the component holds *)

(** In every state the component gets to: while it is loading it holds
    no error and no insights; when it is not, it holds neither, or a
    message that is not empty and no insights, or no error and the body
    that the client returned. *)
Theorem HttpApp_state (engine : Js.Engine) (s : Ui.State Js.Json) :
  HttpApp.reachable engine s ->
  Ui.isLoading s = true /\ Ui.error s = None /\ Ui.insights s = None \/
  Ui.isLoading s = false /\ Ui.error s = None /\ Ui.insights s = None \/
  (Ui.isLoading s = false /\ Ui.insights s = None /\
   exists message, message <> "" /\ Ui.error s = Some message) \/
  (Ui.isLoading s = false /\ Ui.error s = None /\
   exists outcome body,
     Http.getJobInsights engine outcome = Ok body /\ Ui.insights s = Some body).
Proof.
  intros Hreach.
  assert (HttpApp.fallback <> "") as Hfallback by discriminate.
  destruct (reachable_state _ _ _ _ s Hreach)
    as [Hs | [Hs | [(Hl & Hi & outcome & message & Herror & He)
                   | (Hl & He & outcome & body & Hok & Hi)]]].
  - now left.
  - right. now left.
  - right. right. left. split; [assumption |]. split; [assumption |].
    eexists. split; [| exact He].
    pose proof (or_Boolean HttpApp.fallback message Hfallback) as Htruthy.
    intros Hempty. rewrite Hempty in Htruthy. discriminate Htruthy.
  - right. right. right. split; [assumption |]. split; [assumption |].
    now exists outcome, body.
Qed.

Lemma HttpApp_state_witness :
  let s := HttpApp.handleSubmit an_engine (Http.Fetched empty_detail) (Ui.initial Js.Json) in
  Ui.isLoading s = true /\ Ui.error s = None /\ Ui.insights s = None \/
  Ui.isLoading s = false /\ Ui.error s = None /\ Ui.insights s = None \/
  (Ui.isLoading s = false /\ Ui.insights s = None /\
   exists message, message <> "" /\ Ui.error s = Some message) \/
  (Ui.isLoading s = false /\ Ui.error s = None /\
   exists outcome body,
     Http.getJobInsights an_engine outcome = Ok body /\ Ui.insights s = Some body).
Proof.
  apply (HttpApp_state an_engine
           (HttpApp.handleSubmit an_engine (Http.Fetched empty_detail) (Ui.initial Js.Json))).
  eapply rtc_l; [apply Ui.submit; reflexivity |].
  eapply rtc_l; [apply (Ui.settles _ _ _ _ _ (Http.Fetched empty_detail)); reflexivity |].
  apply rtc_refl.
Defined.

(** After a submission that a response answers which is not ok and has a
    JSON body other than null, the component is not loading and holds no
    insights and a message that is not empty: the detail of the body
    when that is a string and not empty; the text made of the status
    without a detail or with an empty one; and the fallback message of
    the component when the detail is an empty list. *)
Theorem HttpApp_not_ok_shown (engine : Js.Engine) (response : Http.Response)
    (body : Js.Json) (s : Ui.State Js.Json) :
  Http.ok response = false ->
  Http.json response = Ok body ->
  body <> Js.JNull ->
  let s' := HttpApp.handleSubmit engine (Http.Fetched response) s in
  Ui.isLoading s' = false /\
  Ui.insights s' = None /\
  exists message,
    Ui.error s' = Some message /\
    message <> "" /\
    (forall detail,
       Http.detail_of body = Some (Js.JString detail) -> detail <> "" ->
       message = detail) /\
    (Http.detail_of body = None \/ Http.detail_of body = Some (Js.JString "") ->
     message = "API error: " +:+ Http.statusText response) /\
    (Http.detail_of body = Some (Js.JArray []) -> message = HttpApp.fallback).
Proof.
  intros Hok Hbody Hnull. cbn zeta.
  unfold HttpApp.handleSubmit, Ui.handleSubmit.
  rewrite (getJobInsights_message engine response body Hok Hbody Hnull).
  cbn [Ui.settle Ui.begin_submit Ui.isLoading Ui.insights Ui.error].
  split; [reflexivity |]. split; [reflexivity |].
  eexists. split; [reflexivity |]. split; [| split; [| split]].
  - pose proof (or_Boolean HttpApp.fallback
                  (Js.ToString engine
                     (Js.or_else (Http.detail_of body)
                        (Js.JString ("API error: " +:+ Http.statusText response))))
                  ltac:(discriminate)) as Htruthy.
    intros Hempty. rewrite Hempty in Htruthy. discriminate Htruthy.
  - intros detail -> Hne. rewrite (or_else_string detail _ Hne).
    cbn [Js.ToString]. now destruct detail.
  - intros Hdetail. rewrite (or_else_fallback _ _ Hdetail). reflexivity.
  - intros ->. reflexivity.
Qed.

Lemma HttpApp_not_ok_shown_witness :
  let s' := HttpApp.handleSubmit an_engine (Http.Fetched empty_detail) (Ui.initial Js.Json) in
  Ui.isLoading s' = false /\
  Ui.insights s' = None /\
  Ui.error s' = Some "API error: Too Many Requests".
Proof.
  destruct (HttpApp_not_ok_shown an_engine empty_detail
              (Js.JObject [("detail", Js.JString "")]) (Ui.initial Js.Json)
              eq_refl eq_refl ltac:(discriminate))
    as (Hloading & Hinsights & message & Herror & _ & _ & Hstatus & _).
  cbn zeta. split; [exact Hloading |]. split; [exact Hinsights |].
  rewrite Herror. f_equal. apply Hstatus. now right.
Defined.

(** The body of a validation error, whose detail is a list of objects,
    leaves the component with the text of an object for its message. *)
Example HttpApp_validation_errors (engine : Js.Engine) :
  Ui.error (HttpApp.handleSubmit engine (Http.Fetched validation_errors) (Ui.initial Js.Json)) =
    Some "[object Object]".
Proof. reflexivity. Qed.

(** ** The chart effect *)

Section Effect.

Variable D : Type.
Variable pie : D -> list Js.number.

Let runs := ChartEffect.runs D pie.

Lemma run_held (st : ChartEffect.Store) (r : ChartEffect.Run D) :
  (forall chart data,
     ChartEffect.live st !! chart = Some data -> ChartEffect.chartRef st = Some chart) ->
  ChartEffect.live (ChartEffect.run D pie st r) = ∅ \/
  exists chart data,
    ChartEffect.chartRef (ChartEffect.run D pie st r) = Some chart /\
    ChartEffect.live (ChartEffect.run D pie st r) = {[ chart := data ]}.
Proof.
  intros Hheld.
  assert (forall chart, ChartEffect.chartRef st = Some chart ->
                        delete chart (ChartEffect.live st) = ∅) as Hdestroyed.
  { intros chart Href. apply map_eq. intros other. rewrite lookup_empty.
    destruct (decide (chart = other)) as [<- | Hother]; [apply lookup_delete_eq |].
    rewrite lookup_delete_ne by assumption.
    destruct (ChartEffect.live st !! other) as [data |] eqn:Hlive; [| reflexivity].
    apply Hheld in Hlive. congruence. }
  assert (ChartEffect.chartRef st = None -> ChartEffect.live st = ∅) as Hnone.
  { intros Href. apply map_eq. intros other. rewrite lookup_empty.
    destruct (ChartEffect.live st !! other) as [data |] eqn:Hlive; [| reflexivity].
    apply Hheld in Hlive. congruence. }
  assert (ChartEffect.live st = ∅ \/
          exists chart data, ChartEffect.chartRef st = Some chart /\
                             ChartEffect.live st = {[ chart := data ]}) as Hst.
  { destruct (ChartEffect.chartRef st) as [chart |] eqn:Href; [| left; now apply Hnone].
    destruct (ChartEffect.live st !! chart) as [data |] eqn:Hlive.
    - right. exists chart, data. split; [reflexivity |].
      rewrite <- (insert_delete_id (ChartEffect.live st) chart data Hlive).
      now rewrite (Hdestroyed chart eq_refl).
    - left. rewrite <- (delete_id (ChartEffect.live st) chart Hlive).
      now apply Hdestroyed. }
  destruct r as [[data |] [|] [|] |]; cbn [ChartEffect.run ChartEffect.effect];
    try exact Hst.
  - (* the effect destroys the chart it holds, then makes one *)
    right. eexists _, (pie data).
    destruct (ChartEffect.chartRef st) as [chart |] eqn:Href;
      cbn [ChartEffect.new_Chart ChartEffect.destroy ChartEffect.chartRef
           ChartEffect.live ChartEffect.made];
      (split; [reflexivity |]); [rewrite (Hdestroyed chart eq_refl) | rewrite Hnone by reflexivity];
      reflexivity.
  - (* no context: the chart held is destroyed, none is made *)
    left. destruct (ChartEffect.chartRef st) as [chart |] eqn:Href;
      cbn [ChartEffect.destroy ChartEffect.live]; [now apply Hdestroyed | now apply Hnone].
  - (* the cleanup *)
    left. unfold ChartEffect.cleanup.
    destruct (ChartEffect.chartRef st) as [chart |] eqn:Href;
      cbn [ChartEffect.live]; [now apply Hdestroyed | now apply Hnone].
Qed.

Lemma runs_held (rs : list (ChartEffect.Run D)) :
  ChartEffect.live (runs rs) = ∅ \/
  exists chart data,
    ChartEffect.chartRef (runs rs) = Some chart /\
    ChartEffect.live (runs rs) = {[ chart := data ]}.
Proof.
  unfold runs, ChartEffect.runs.
  induction rs as [| r rs IH] using rev_ind; [now left |].
  rewrite foldl_app. cbn [foldl]. apply run_held.
  intros chart data Hlive. destruct IH as [Hempty | (held & data' & Href & Hone)].
  - rewrite Hempty, lookup_empty in Hlive. discriminate Hlive.
  - rewrite Hone in Hlive. apply lookup_singleton_Some in Hlive as [<- _]. exact Href.
Qed.

(** However the effect and its cleanup are run, at most one chart is
    live, and it is the one [chartRef] holds: no chart is left behind. *)
Theorem chart_held (rs : list (ChartEffect.Run D)) :
  (size (ChartEffect.live (runs rs)) <= 1)%nat /\
  (ChartEffect.live (runs rs) = ∅ \/
   exists chart data,
     ChartEffect.chartRef (runs rs) = Some chart /\
     ChartEffect.live (runs rs) = {[ chart := data ]}).
Proof.
  pose proof (runs_held rs) as Hheld. split; [| exact Hheld].
  destruct Hheld as [-> | (chart & data & _ & ->)].
  - rewrite map_size_empty. lia.
  - rewrite map_size_singleton. lia.
Qed.

(** After the effect has run with insights, a canvas and a context, the
    one live chart is a new one with the two numbers of the insights;
    after the cleanup no chart is live and [chartRef] holds none. *)
Theorem chart_drawn (rs : list (ChartEffect.Run D)) (data : D) :
  (let drawn := ChartEffect.effect D pie (Some data) true true (runs rs) in
   ChartEffect.chartRef drawn = Some (ChartEffect.made (runs rs)) /\
   ChartEffect.live drawn = {[ ChartEffect.made (runs rs) := pie data ]}) /\
  ChartEffect.chartRef (ChartEffect.cleanup (runs rs)) = None /\
  ChartEffect.live (ChartEffect.cleanup (runs rs)) = ∅.
Proof.
  pose proof (runs_held rs) as Hheld.
  split; [cbn zeta; unfold ChartEffect.effect | unfold ChartEffect.cleanup];
    destruct Hheld as [Hempty | (held & data' & Href & Hone)].
  - destruct (ChartEffect.chartRef (runs rs));
      cbn [ChartEffect.new_Chart ChartEffect.destroy ChartEffect.chartRef
           ChartEffect.live ChartEffect.made];
      rewrite Hempty, ?delete_empty; split; reflexivity.
  - rewrite Href.
    cbn [ChartEffect.new_Chart ChartEffect.destroy ChartEffect.chartRef
         ChartEffect.live ChartEffect.made].
    rewrite Hone, delete_singleton_eq. split; reflexivity.
  - destruct (ChartEffect.chartRef (runs rs)) eqn:Href;
      cbn [ChartEffect.chartRef ChartEffect.live];
      rewrite ?Hempty, ?delete_empty, ?Href; split; reflexivity.
  - rewrite Href. cbn [ChartEffect.chartRef ChartEffect.live].
    rewrite Hone, delete_singleton_eq. split; reflexivity.
Qed.

End Effect.

Lemma chart_drawn_witness :
  ChartEffect.live
    (ChartEffect.effect Http.InsightData HttpApp.pie (Some analyst_insights) true true
       (ChartEffect.runs Http.InsightData HttpApp.pie
          [ChartEffect.RunEffect _ (Some analyst_insights) true true;
           ChartEffect.RunCleanup _])) =
    {[ 1%nat := [Js.num 70; Js.num 30] ]}.
Proof.
  exact (proj2 (proj1 (chart_drawn Http.InsightData HttpApp.pie
                         [ChartEffect.RunEffect _ (Some analyst_insights) true true;
                          ChartEffect.RunCleanup _] analyst_insights))).
Defined.
